(** * WhatsApp bulk messenger: the dispatch loop, the recipient file reader
      and the process driver of [whatsapp_bulk_sender.py]

    The Python program is embedded as functions in a state-and-exception
    monad.  The state holds the sender object ([self]) and the outside
    world: the file system, the browser's answers to the Selenium calls,
    the random source and the trace of everything the program did
    (calls to the browser and to [time.sleep], printed lines).  An
    exception leaves the state as it was when it was raised, as in
    Python. *)

From Stdlib Require Import ZArith NArith QArith Lqa List Bool Lia String Ascii.
From stdpp Require Import base list gmap.
Import ListNotations.

Local Open Scope N_scope.
Local Open Scope stdpp_scope.

(** ** Python strings *)

(** A Python [str] is a sequence of Unicode code points. *)
Abbreviation char := N.
Abbreviation str := (list N).

(** String literals of the examples (each byte one code point: ASCII). *)
Definition lit (s : string) : str :=
  List.map N_of_ascii (list_ascii_of_string s).

Definition LF : char := 10.
Definition CR : char := 13.

(** [str.isspace] on one character, the whitespace table of CPython
    ([_PyUnicode_IsWhitespace]): the characters [str.strip()] removes. *)
Definition isspace (c : char) : bool :=
  ((9 <=? c) && (c <=? 13)) || ((28 <=? c) && (c <=? 32))
  || (c =? 133) || (c =? 160) || (c =? 5760)
  || ((8192 <=? c) && (c <=? 8202))
  || (c =? 8232) || (c =? 8233) || (c =? 8239) || (c =? 8287)
  || (c =? 12288).

(** [s.lstrip()]: drop the leading whitespace. *)
Fixpoint lstrip (s : str) : str :=
  match s with
  | [] => []
  | c :: rest => if isspace c then lstrip rest else s
  end.

(** [s.rstrip()]: drop the trailing whitespace. *)
Definition rstrip (s : str) : str := reverse (lstrip (reverse s)).

(** [s.strip()]. *)
Definition strip (s : str) : str := rstrip (lstrip s).

(** Truth value of a string or a list: non-empty. *)
Definition truthy {A} (l : list A) : bool :=
  match l with [] => false | _ :: _ => true end.

(** *** Text files *)

(** [open(path, 'r', encoding='utf-8')] reads with universal newlines:
    ["\r\n"] and a lone ["\r"] arrive as ["\n"]; iterating the file yields
    the lines, each with its terminating ["\n"] (the last line may lack
    it). *)
Fixpoint universal_newlines (s : str) : str :=
  match s with
  | [] => []
  | c :: rest =>
      if c =? CR then
        match rest with
        | d :: _ => if d =? LF then universal_newlines rest
                    else LF :: universal_newlines rest
        | [] => [LF]
        end
      else c :: universal_newlines rest
  end.

Fixpoint split_lines (s : str) : list str :=
  match s with
  | [] => []
  | c :: rest =>
      if c =? LF then [c] :: split_lines rest
      else match split_lines rest with
           | [] => [[c]]
           | l :: ls => (c :: l) :: ls
           end
  end.

(** The lines a [for line in f] loop sees, for a file of content [s]. *)
Definition file_lines (s : str) : list str :=
  split_lines (universal_newlines s).

(** *** What the specification calls blank and trimmed *)

(** A line is blank when it holds nothing but whitespace. *)
Definition blank (s : str) : bool := forallb isspace s.

(** A recipient is trimmed when it is non-empty and neither starts nor
    ends with whitespace. *)
Definition trimmed (s : str) : Prop :=
  s ≠ [] ∧ (∀ c, head s = Some c → isspace c = false)
         ∧ (∀ c, last s = Some c → isspace c = false).

(** The recipients of an input sequence: its non-blank entries, each
    without its surrounding whitespace, in order. *)
Definition recipients (entries : list str) : list str :=
  List.map strip (List.filter (λ e, negb (blank e)) entries).

(** ** Exceptions, the browser and the trace *)

(** The instances of [Exception] the program can meet. *)
Inductive exception :=
| TimeoutException | NoSuchElementException | WebDriverException
| AttributeError | ValueError
| FileNotFoundError | PermissionError | IsADirectoryError
| UnicodeDecodeError | OSError.

(** What a [raise] carries: an [Exception], or one of the two
    [BaseException]s that [except Exception] does not catch. *)
Inductive raised :=
| Exc (e : exception)
| KeyboardInterrupt
| SystemExit (code : Z).

Inductive result (A : Type) :=
| Ret (a : A)
| Raise (e : raised).
Arguments Ret {A} a.
Arguments Raise {A} e.

(** The XPath expressions of the program. *)
Inductive locator :=
| SearchBox        (* //div[@contenteditable='true' and @data-tab='3'] *)
| MessageBox10     (* ... and @data-tab='10' *)
| MessageBox1      (* ... and @data-tab='1' *)
| RoleTextbox      (* ... and @role='textbox' *)
| AnyMessageBox.   (* data-tab 10, or 1, or role textbox *)

Inductive WebElement := Element (found_by : locator).
Inductive WebDriver := ChromeDriver.
Record WebDriverWait := { timeout : Z }.

Inductive key := KChar (c : char) | KReturn | KEscape.

(** The calls that leave the program: Selenium and [time.sleep]. *)
Inductive call :=
| ChromeDriverManager_install
| webdriver_Chrome (detach : bool)
| driver_execute_script
| driver_get
| wait_until (l : locator)
| driver_find_element (l : locator)
| element_click (el : WebElement)
| element_clear (el : WebElement)
| element_send_keys (el : WebElement) (k : key)
| driver_quit
| time_sleep (d : Q).

(** What the outside answers to a call: it returns, it raises an
    exception, or the user's interrupt arrives while it runs. *)
Inductive reply := Done | Throws (e : exception) | Interrupted.

(** The lines the program prints, one constructor per [print]. *)
Inductive line :=
| LDriverInitialized
| LOpening | LWaitingQR | LPleaseScan | LLoggedIn | LQRTimeout
| LSearchTimeout (phone : str) | LSearchError (phone : str) (e : exception)
| LContactNotFound (phone : str) | LMessageSent (phone : str)
| LSendTimeout (phone : str) | LSendError (phone : str) (e : exception)
| LStarting (total : nat) | LMessagePreview (shown : str) (ellipsis : bool)
| LProcessing (i total : nat) (phone : str)
| LWaiting (delay : Q)
| LRule | LSummaryTitle | LSuccessCount (n : nat) | LFailedCount (n : nat)
| LFailedHeader | LFailedNumber (phone : str)
| LClosingBrowser | LCleanupComplete
| LFileNotFound (path : str) | LReadError (path : str) (e : exception)
| LNumbersFileNotFound (path : str) | LNoNumbers
| LLoaded (n : nat) (path : str)
| LLoginFailed | LInterrupted
| LUnexpectedError (e : exception) | LTraceback (e : exception).

(** The trace.  [Deliver] is instrumentation: it marks the entry into
    [send_message], the [deliver] capability of the specification. *)
Inductive event :=
| Called (c : call)
| Printed (l : line)
| Deliver (phone message : str).

(** A path of the file system: missing, present but unreadable (the
    read raises [e]), or a text file with its decoded content. *)
Inductive file :=
| Absent
| Unreadable (e : exception)
| Holds (content : str).

(** ** The state *)

(** [self.results] (lines 34 to 37): the two lists of the dict. *)
Record Results := mkResults { success : list str; failed : list str }.

(** The fields of a [WhatsAppBulkSender] object (lines 31 to 37). *)
Record Sender := mkSender {
  driver : option WebDriver;
  wait : option WebDriverWait;
  headless : bool;
  results : Results }.

(** The state of a run: the sender object and the world around it. *)
Record State := mkState {
  self : Sender;                        (* the sender object *)
  fs : str → file;                      (* the file system *)
  env : list event → call → reply;      (* the outside, given the history *)
  rng : nat → Q;                        (* the values of random.random() *)
  draws : nat;                          (* how many were drawn *)
  trace : list event }.

(** Updates of one field of the state; [log] adds an event to the trace. *)
Definition set_self (s : Sender) (st : State) : State :=
  mkState s (fs st) (env st) (rng st) (draws st) (trace st).
Definition set_draws (n : nat) (st : State) : State :=
  mkState (self st) (fs st) (env st) (rng st) n (trace st).
Definition log (ev : event) (st : State) : State :=
  mkState (self st) (fs st) (env st) (rng st) (draws st) (trace st ++ [ev]).

(** Assignments to one field of the sender. *)
Definition set_driver (d : option WebDriver) (s : Sender) : Sender :=
  mkSender d (wait s) (headless s) (results s).
Definition set_wait (w : option WebDriverWait) (s : Sender) : Sender :=
  mkSender (driver s) w (headless s) (results s).
Definition set_results (r : Results) (s : Sender) : Sender :=
  mkSender (driver s) (wait s) (headless s) r.

(** ** The monad: state, and exceptions that keep the state *)

(** An action takes the state and gives what it returned or raised, and
    the state it left. *)
Definition M (A : Type) : Type := State → result A * State.

#[global] Instance M_ret : MRet M := λ A a st, (Ret a, st).
#[global] Instance M_bind : MBind M := λ A B k m st,
  match m st with
  | (Ret a, st1) => k a st1
  | (Raise e, st1) => (Raise e, st1)
  end.

(** [raise e]. *)
Definition raise {A} (e : raised) : M A := λ st, (Raise e, st).

(** [sys.exit(code)]. *)
Definition sys_exit {A} (code : Z) : M A := raise (SystemExit code).

(** Recording an event; [print] records the line. *)
Definition emit (ev : event) : M unit := λ st, (Ret tt, log ev st).
Definition print (l : line) : M unit := emit (Printed l).

(** A call to the outside: it is recorded, and the outside decides. *)
Definition external (c : call) : M unit := λ st,
  match env st (trace st) c with
  | Done => (Ret tt, log (Called c) st)
  | Throws e => (Raise (Exc e), log (Called c) st)
  | Interrupted => (Raise KeyboardInterrupt, log (Called c) st)
  end.

(** Reading and updating the sender object. *)
Definition get_self : M Sender := λ st, (Ret (self st), st).
Definition modify_self (f : Sender → Sender) : M unit :=
  λ st, (Ret tt, set_self (f (self st)) st).

(** [random.uniform(a, b)] is [a + (b - a) * random()]. *)
Definition uniform (a b u : Q) : Q := (a + (b - a) * u)%Q.
Definition random_uniform (a b : Q) : M Q := λ st,
  (Ret (uniform a b (rng st (draws st))), set_draws (S (draws st)) st).

(** [try: body except ...: handler]; the clauses are a partial function
    from what was raised to the handler that takes it. *)
Definition try_except {A} (body : M A) (clauses : raised → option (M A)) : M A :=
  λ st, match body st with
        | (Ret a, st1) => (Ret a, st1)
        | (Raise e, st1) =>
            match clauses e with
            | Some handler => handler st1
            | None => (Raise e, st1)
            end
        end.

(** [try: body finally: final].  What [final] raises replaces the
    outcome of [body]. *)
Definition try_finally {A} (body : M A) (final : M unit) : M A :=
  λ st, match body st with
        | (r, st1) =>
            match final st1 with
            | (Ret _, st2) => (r, st2)
            | (Raise e, st2) => (Raise e, st2)
            end
        end.

(** [for x in l: body]. *)
Fixpoint for_each {A} (l : list A) (body : A → M unit) : M unit :=
  match l with
  | [] => mret tt
  | x :: rest => body x;; for_each rest body
  end.

(** [enumerate(l, start)]. *)
Fixpoint enumerate {A} (l : list A) (start : nat) : list (nat * A) :=
  match l with
  | [] => []
  | x :: rest => (start, x) :: enumerate rest (S start)
  end.

Local Close Scope N_scope.

(** ** class WhatsAppBulkSender *)

(** [__init__] (lines 24 to 37). *)
Definition WhatsAppBulkSender (headless : bool) : Sender :=
  {| driver := None; wait := None; headless := headless;
     results := {| success := []; failed := [] |} |}.

(** Reading [self.driver] or [self.wait] to call a method on it: on
    [None] the call raises [AttributeError]. *)
Definition self_driver : M WebDriver :=
  s ← get_self;
  match driver s with
  | Some d => mret d
  | None => raise (Exc AttributeError)
  end.

Definition self_wait : M WebDriverWait :=
  s ← get_self;
  match wait s with
  | Some w => mret w
  | None => raise (Exc AttributeError)
  end.

(** [self.wait.until(EC.presence_of_element_located((By.XPATH, l)))]. *)
Definition self_wait_until (l : locator) : M WebElement :=
  self_wait;; external (wait_until l);; mret (Element l).

(** [self.driver.find_element(By.XPATH, l)]. *)
Definition self_driver_find_element (l : locator) : M WebElement :=
  self_driver;; external (driver_find_element l);; mret (Element l).

(** [time.sleep(secs)]: a negative length raises [ValueError]; otherwise
    the call returns, unless the interrupt arrives while it sleeps (it
    raises nothing else, whatever the outside answers). *)
Definition sleep (secs : Q) : M unit :=
  if negb (Qle_bool 0 secs) then raise (Exc ValueError)
  else λ st,
    match env st (trace st) (time_sleep secs) with
    | Interrupted => (Raise KeyboardInterrupt, log (Called (time_sleep secs)) st)
    | _ => (Ret tt, log (Called (time_sleep secs)) st)
    end.

(** [setup_driver] (lines 39 to 62). *)
Definition setup_driver : M unit :=
  s ← get_self;
  (* chrome_options: "detach" is set unless headless *)
  let detach := negb (headless s) in
  external ChromeDriverManager_install;;
  external (webdriver_Chrome detach);;
  modify_self (set_driver (Some ChromeDriver));;
  self_driver;; external driver_execute_script;;
  modify_self (set_wait (Some {| timeout := 200 |}));;
  print LDriverInitialized.

(** [open_whatsapp_web] (lines 64 to 83). *)
Definition open_whatsapp_web : M bool :=
  print LOpening;;
  self_driver;; external driver_get;;
  print LWaitingQR;;
  print LPleaseScan;;
  try_except
    (self_wait_until SearchBox;;
     print LLoggedIn;;
     sleep 2;;
     mret true)
    (λ e, match e with
          | Exc TimeoutException => Some (print LQRTimeout;; mret false)
          | _ => None
          end).

(** [human_type] (lines 85 to 100); the delays are in milliseconds. *)
Definition human_type (element : WebElement) (text : str)
    (min_delay max_delay : Q) : M unit :=
  external (element_clear element);;
  for_each text (λ char,
    external (element_send_keys element (KChar char));;
    delay ← random_uniform (min_delay / 1000) (max_delay / 1000);
    sleep delay).

(** [search_contact] (lines 102 to 158). *)
Definition search_contact (phone_number : str) : M bool :=
  try_except
    (search_box ← self_wait_until SearchBox;
     external (element_click search_box);;
     sleep 0.5;;
     external (element_clear search_box);;
     sleep 0.3;;
     human_type search_box phone_number 50 150;;
     sleep 1.5;;
     external (element_send_keys search_box KReturn);;
     sleep 2;;
     try_except
       (self_driver_find_element AnyMessageBox;;
        mret true)
       (λ e, match e with
             | Exc NoSuchElementException =>
                 Some (try_except
                         (external (element_clear search_box);;
                          sleep 0.5;;
                          external (element_send_keys search_box KEscape))
                         (λ _, Some (mret tt));;   (* bare except: pass *)
                       mret false)
             | _ => None
             end))
    (λ e, match e with
          | Exc TimeoutException =>
              Some (print (LSearchTimeout phone_number);; mret false)
          | Exc e' =>
              Some (print (LSearchError phone_number e');; mret false)
          | _ => None
          end).

(** The [try] block of [send_message] (lines 172 to 206). *)
Definition send_message_try (phone_number message : str) : M bool :=
  found ← search_contact phone_number;
  if negb found then
    print (LContactNotFound phone_number);;
    mret false
  else
    message_box ←
      try_except (self_wait_until MessageBox10)
        (λ e, match e with
              | Exc TimeoutException =>
                  Some (try_except (self_wait_until MessageBox1)
                          (λ e, match e with
                                | Exc TimeoutException =>
                                    Some (self_driver_find_element RoleTextbox)
                                | _ => None
                                end))
              | _ => None
              end);
    external (element_click message_box);;
    sleep 0.3;;
    human_type message_box message 50 150;;
    sleep 0.5;;
    external (element_send_keys message_box KReturn);;
    sleep 1;;
    print (LMessageSent phone_number);;
    mret true.

(** The [except] clauses of [send_message] (lines 208 to 213). *)
Definition send_message_except (phone_number : str)
    (e : raised) : option (M bool) :=
  match e with
  | Exc TimeoutException =>
      Some (print (LSendTimeout phone_number);; mret false)
  | Exc e' =>
      Some (print (LSendError phone_number e');; mret false)
  | _ => None
  end.

(** [send_message] (lines 160 to 213). *)
Definition send_message (phone_number message : str) : M bool :=
  emit (Deliver phone_number message);;
  try_except (send_message_try phone_number message)
             (send_message_except phone_number).

(** [self.results['success'].append(phone_number)] (line 239). *)
Definition append_success (phone_number : str) (s : Sender) : Sender :=
  set_results {| success := success (results s) ++ [phone_number];
                 failed := failed (results s) |} s.

(** [self.results['failed'].append(phone_number)] (line 241). *)
Definition append_failed (phone_number : str) (s : Sender) : Sender :=
  set_results {| success := success (results s);
                 failed := failed (results s) ++ [phone_number] |} s.

(** The pause at the end of a round (lines 243 to 247): random delay
    between messages (except for the last one). *)
Definition pause (i total : nat) (delay_min delay_max : Q) : M unit :=
  if (i <? total)%nat then
    delay ← random_uniform delay_min delay_max;
    print (LWaiting delay);;
    sleep delay
  else mret tt.

(** One round of the loop of [send_bulk_messages] (lines 230 to 247). *)
Definition send_bulk_messages_round (total : nat) (message : str)
    (delay_min delay_max : Q) (item : nat * str) : M unit :=
  let i := item.1 in
  let phone_number := strip item.2 in
  if negb (truthy phone_number) then mret tt   (* continue *)
  else
    print (LProcessing i total phone_number);;
    success ← send_message phone_number message;
    (if success : bool
     then modify_self (append_success phone_number)
     else modify_self (append_failed phone_number));;
    pause i total delay_min delay_max.

(** The summary (lines 249 to 259). *)
Definition print_summary : M unit :=
  print LRule;;
  print LSummaryTitle;;
  print LRule;;
  s ← get_self;
  print (LSuccessCount (length (success (results s))));;
  s ← get_self;
  print (LFailedCount (length (failed (results s))));;
  s ← get_self;
  if truthy (failed (results s)) then
    print LFailedHeader;;
    for_each (failed (results s)) (λ number, print (LFailedNumber number))
  else mret tt.

(** [send_bulk_messages] (lines 215 to 259). *)
Definition send_bulk_messages (phone_numbers : list str) (message : str)
    (delay_min delay_max : Q) : M unit :=
  let total := length phone_numbers in
  print (LStarting total);;
  print (LMessagePreview (take 50 message) (50 <? length message)%nat);;
  for_each (enumerate phone_numbers 1)
    (send_bulk_messages_round total message delay_min delay_max);;
  print_summary.

(** [cleanup] (lines 261 to 266). *)
Definition cleanup : M unit :=
  s ← get_self;
  match driver s with
  | Some _ =>
      print LClosingBrowser;;
      external driver_quit;;
      print LCleanupComplete
  | None => mret tt
  end.

(** ** Module-level functions *)

(** [open] and the iteration over the file (lines 280 and 281): a
    missing file raises [FileNotFoundError], an unreadable one its error. *)
Definition open_and_read_lines (file_path : str) : M (list str) := λ st,
  match fs st file_path with
  | Absent => (Raise (Exc FileNotFoundError), st)
  | Unreadable e => (Raise (Exc e), st)
  | Holds content => (Ret (file_lines content), st)
  end.

(** [[line.strip() for line in f if line.strip()]] (line 281). *)
Fixpoint strip_nonempty (f : list str) : list str :=
  match f with
  | [] => []
  | line :: rest =>
      if truthy (strip line) then strip line :: strip_nonempty rest
      else strip_nonempty rest
  end.

(** [read_phone_numbers] (lines 269 to 288). *)
Definition read_phone_numbers (file_path : str) : M (list str) :=
  try_except
    (f ← open_and_read_lines file_path;
     let numbers := strip_nonempty f in
     mret numbers)
    (λ e, match e with
          | Exc FileNotFoundError =>
              Some (print (LFileNotFound file_path);; sys_exit 1)
          | Exc e' =>
              Some (print (LReadError file_path e');; sys_exit 1)
          | _ => None
          end).

(** [Path(p).exists()] (line 338). *)
Definition path_exists (p : str) : M bool := λ st,
  (Ret (match fs st p with Absent => false | _ => true end), st).

(** The parsed command line (lines 293 to 335). *)
Record Args := mkArgs {
  numbers : str;
  message : str;
  arg_headless : bool;
  delay_min : Z;
  delay_max : Z }.

(** The [try] block of [main] (lines 355 to 369). *)
Definition main_try (args : Args) (phone_numbers : list str) : M unit :=
  setup_driver;;
  logged_in ← open_whatsapp_web;
  (if negb logged_in then
     print LLoginFailed;;
     cleanup;;
     sys_exit 1
   else mret tt);;
  send_bulk_messages phone_numbers (message args)
    (inject_Z (delay_min args)) (inject_Z (delay_max args)).

(** The [except] clauses of [main] (lines 371 to 376). *)
Definition main_except (e : raised) : option (M unit) :=
  match e with
  | KeyboardInterrupt => Some (print LInterrupted)
  | Exc e' => Some (print (LUnexpectedError e');; print (LTraceback e'))
  | SystemExit _ => None
  end.

(** The [try] statement of [main] (lines 354 to 379). *)
Definition main_session (args : Args) (phone_numbers : list str) : M unit :=
  try_finally
    (try_except (main_try args phone_numbers) main_except)
    cleanup.

(** [main] (lines 291 to 379); line 352 binds the new sender. *)
Definition main (args : Args) : M unit :=
  present ← path_exists (numbers args);
  if negb present then
    print (LNumbersFileNotFound (numbers args));;
    sys_exit 1
  else
    phone_numbers ← read_phone_numbers (numbers args);
    if negb (truthy phone_numbers) then
      print LNoNumbers;;
      sys_exit 1
    else
      print (LLoaded (length phone_numbers) (numbers args));;
      modify_self (λ _, WhatsAppBulkSender (arg_headless args));;
      main_session args phone_numbers.

(** The exit status of the interpreter for the outcome of [main()]. *)
Definition exit_status (r : result unit) : Z :=
  match r with
  | Ret _ => 0
  | Raise (SystemExit code) => code
  | Raise KeyboardInterrupt => 130
  | Raise (Exc _) => 1
  end.

(** Running the script: [if __name__ == "__main__": main()]. *)
Definition run (args : Args) (st : State) : Z * State :=
  let (r, st') := main args st in (exit_status r, st').

(** * The vocabulary of the properties *)

(** ** What the trace shows *)

(** How a delivery attempt ended, as [send_message] reports it. *)
Inductive outcome :=
| Sent                        (* returned True *)
| NotFound                    (* returned False: contact not found *)
| TimedOut                    (* raised TimeoutException, absorbed *)
| Errored (e : exception).    (* raised another Exception, absorbed *)

(** The delivery returned True. *)
Definition is_sent (o : outcome) : bool :=
  match o with Sent => true | _ => false end.

(** The delivery attempt an event records, if it records one. *)
Definition attempt_of (ev : event) : option (str * str) :=
  match ev with Deliver p m => Some (p, m) | _ => None end.

(** The outcome a printed line reports: the four lines [send_message]
    ends on (lines 174, 205, 209 and 212). *)
Definition outcome_of (ev : event) : option (str * outcome) :=
  match ev with
  | Printed (LMessageSent p) => Some (p, Sent)
  | Printed (LContactNotFound p) => Some (p, NotFound)
  | Printed (LSendTimeout p) => Some (p, TimedOut)
  | Printed (LSendError p e) => Some (p, Errored e)
  | _ => None
  end.

(** The pause a printed line announces (line 246). *)
Definition pause_of (ev : event) : option Q :=
  match ev with Printed (LWaiting d) => Some d | _ => None end.

(** The delivery attempts, in order: recipient and message. *)
Definition attempts (tr : list event) : list (str * str) := omap attempt_of tr.
(** The reported outcomes, in order. *)
Definition outcomes (tr : list event) : list (str * outcome) := omap outcome_of tr.
(** The pauses between messages, in order. *)
Definition pauses (tr : list event) : list Q := omap pause_of tr.

(** The recipients among [outs] that were sent to, and the others. *)
Definition sent_to (outs : list (str * outcome)) : list str :=
  List.map fst (List.filter (λ po, is_sent po.2) outs).
Definition not_sent_to (outs : list (str * outcome)) : list str :=
  List.map fst (List.filter (λ po, negb (is_sent po.2)) outs).

(** What [send_message] reports when its [try] block raised [e]. *)
Definition absorbed (e : exception) : outcome :=
  match e with TimeoutException => TimedOut | _ => Errored e end.

(** The line it prints then (lines 209 and 212). *)
Definition absorbed_line (phone : str) (e : exception) : line :=
  match e with
  | TimeoutException => LSendTimeout phone
  | _ => LSendError phone e
  end.

(** What [send_message] reports for what its [try] block did. *)
Definition reported (phone : str) (r : result bool) : list (str * outcome) :=
  match r with
  | Ret true => [(phone, Sent)]
  | Ret false => [(phone, NotFound)]
  | Raise _ => []
  end.

(** The lines of the summary (lines 250 to 259). *)
Definition summary_line (l : line) : bool :=
  match l with
  | LRule | LSummaryTitle | LSuccessCount _ | LFailedCount _
  | LFailedHeader | LFailedNumber _ => true
  | _ => false
  end.

(** The state with the events [evs] added to its trace. *)
Definition log_all (evs : list event) (st : State) : State :=
  mkState (self st) (fs st) (env st) (rng st) (draws st) (trace st ++ evs).

(** The two lines [send_bulk_messages] prints before the loop. *)
Definition heading (phone_numbers : list str) (message : str) : list event :=
  [Printed (LStarting (length phone_numbers));
   Printed (LMessagePreview (take 50 message) (50 <? length message)%nat)].

(** The lines of the summary for the results [r]. *)
Definition summary_of (r : Results) : list event :=
  [Printed LRule; Printed LSummaryTitle; Printed LRule;
   Printed (LSuccessCount (length (success r)));
   Printed (LFailedCount (length (failed r)))]
  ++ (if truthy (failed r)
      then Printed LFailedHeader
           :: List.map (λ number, Printed (LFailedNumber number)) (failed r)
      else []).

(** What [cleanup] adds to the trace when the browser answers [r] to
    [driver.quit()]. *)
Definition cleanup_events (d : option WebDriver) (r : reply) : list event :=
  match d with
  | None => []
  | Some _ =>
      [Printed LClosingBrowser; Called driver_quit]
      ++ match r with Done => [Printed LCleanupComplete] | _ => [] end
  end.

(** The last [n] events of a trace. *)
Definition last_events (n : nat) (tr : list event) : list event :=
  drop (length tr - n) tr.

(** The line [read_phone_numbers] prints when reading raises [e]. *)
Definition read_error_line (path : str) (e : exception) : line :=
  match e with
  | FileNotFoundError => LFileNotFound path
  | _ => LReadError path e
  end.

(** The messages of [main] and [read_phone_numbers] for a recipient file
    that is missing, unreadable or without recipients. *)
Inductive configuration_error (path : str) : line → Prop :=
| numbers_file_not_found : configuration_error path (LNumbersFileNotFound path)
| file_not_found : configuration_error path (LFileNotFound path)
| read_error e : configuration_error path (LReadError path e)
| no_numbers : configuration_error path LNoNumbers.

(** ** Kinds of events *)

(** Events of the browser layer: the calls, and the two lines
    [search_contact] prints. *)
Definition browser (ev : event) : Prop :=
  match ev with
  | Called _ => True
  | Printed (LSearchTimeout _) | Printed (LSearchError _ _) => True
  | _ => False
  end.

(** Events other than a delivery attempt. *)
Definition no_delivery (ev : event) : Prop :=
  match ev with Deliver _ _ => False | _ => True end.

(** Events other than a line of the summary. *)
Definition no_summary (ev : event) : Prop :=
  match ev with Printed l => summary_line l = false | _ => True end.

(** Events that are neither an attempt, nor an outcome, nor a pause. *)
Definition plain (ev : event) : Prop :=
  attempt_of ev = None ∧ outcome_of ev = None ∧ pause_of ev = None.

(** Events of the session around the dispatch: calls, and lines that
    belong neither to a delivery nor to the summary. *)
Definition backstage (ev : event) : Prop :=
  match ev with
  | Called _ => True
  | Printed l =>
      summary_line l = false ∧ outcome_of (Printed l) = None
      ∧ pause_of (Printed l) = None
  | Deliver _ _ => False
  end.

(** ** The state before and the state after *)

(** The parts of the world the program does not change. *)
Definition same_world (st st' : State) : Prop :=
  fs st' = fs st ∧ env st' = env st ∧ rng st' = rng st.

(** [quiet P]: the results are untouched and only events in [P] were
    added to the trace. *)
Definition quiet (P : event → Prop) (st st' : State) : Prop :=
  results (self st') = results (self st) ∧ same_world st st'
  ∧ ∃ evs, trace st' = trace st ++ evs ∧ Forall P evs.

(** [traced P]: only events in [P] were added to the trace. *)
Definition traced (P : event → Prop) (st st' : State) : Prop :=
  ∃ evs, trace st' = trace st ++ evs ∧ Forall P evs.

(** [grows]: the two result lists were only appended to. *)
Definition grows (st st' : State) : Prop :=
  success (results (self st)) `prefix_of` success (results (self st'))
  ∧ failed (results (self st)) `prefix_of` failed (results (self st')).

(** The outside sends no interrupt. *)
Definition calm (st : State) : Prop := ∀ h c, env st h c ≠ Interrupted.

(** An outcome is fine when it is no [SystemExit], and an interrupt
    only if the outside sends interrupts. *)
Definition fine {A} (st : State) (r : result A) : Prop :=
  match r with
  | Ret _ | Raise (Exc _) => True
  | Raise KeyboardInterrupt => ¬ calm st
  | Raise (SystemExit _) => False
  end.

(** What can stop the loop: an interrupt from outside, or a negative
    delay handed to [time.sleep]. *)
Definition upset (a b : Q) (st : State) : Prop :=
  ¬ calm st ∨ ∃ k, (uniform a b (rng st k) < 0)%Q.

(** ** What an action keeps *)

(** An action keeps a relation when every run relates the state before
    to the state after, whether it returns or raises. *)
Definition inv (R : relation State) {A} (m : M A) : Prop :=
  ∀ st, R st (m st).2.


(** A clean action leaves the outside as it is and ends on a fine
    outcome. *)
Definition clean {A} (m : M A) : Prop :=
  ∀ st, env (m st).2 = env st ∧ fine st (m st).1.

(** [shows m f]: a run of [m] leaves the results alone, attempts no
    delivery, pauses nowhere, and reports the outcomes [f r] where [r]
    is how the run ended. *)
Definition shows {A} (m : M A) (f : result A → list (str * outcome)) : Prop :=
  ∀ st,
    results (self (m st).2) = results (self st)
    ∧ same_world st (m st).2
    ∧ fine st (m st).1
    ∧ ∃ evs, trace (m st).2 = trace st ++ evs
             ∧ attempts evs = [] ∧ pauses evs = []
             ∧ outcomes evs = f (m st).1.

(** ** The dispatch loop and the session *)

(** The loop of [send_bulk_messages], from round [i] on. *)
Definition dispatch_loop (total : nat) (message : str) (a b : Q)
    (i : nat) (entries : list str) : M unit :=
  for_each (enumerate entries i) (send_bulk_messages_round total message a b).

(** The entries of a round that pauses: non-blank, and not in the last
    position of the sequence. *)
Definition pausing (total : nat) (item : nat * str) : bool :=
  negb (blank item.2) && (item.1 <? total)%nat.

(** The state when the loop has gone through its first [n] rounds, or
    stopped before on a raise. *)
Definition after_rounds (n : nat) (phone_numbers : list str) (message : str)
    (a b : Q) (st : State) : State :=
  (for_each (take n (enumerate phone_numbers 1))
     (send_bulk_messages_round (length phone_numbers) message a b) st).2.

(** What a stretch of the loop did: [tried] are the recipients it
    attempted, in order. *)
Record dispatched (message : str) (a b : Q) (st st' : State)
    (evs : list event) (tried : list str) : Prop := {
  d_world : same_world st st';
  d_trace : trace st' = trace st ++ evs;
  d_attempts : attempts evs = (λ p, (p, message)) <$> tried;
  d_outcomes : (outcomes evs).*1 `prefix_of` tried;
  d_success : success (results (self st'))
              = success (results (self st)) ++ sent_to (outcomes evs);
  d_failed : failed (results (self st'))
             = failed (results (self st)) ++ not_sent_to (outcomes evs);
  d_pauses : Forall (λ d, ∃ k, d = uniform a b (rng st k)) (pauses evs) }.


(** The state in which the [try] statement of [main] starts. *)
Definition session_start (args : Args) (phone_numbers : list str)
    (st : State) : State :=
  set_self (WhatsAppBulkSender (arg_headless args))
    (log (Printed (LLoaded (length phone_numbers) (numbers args))) st).

(** ** The browser layer, the progress lines and the session *)

(** The Selenium call an event records ([time.sleep] is not one). *)
Definition selenium_of (ev : event) : option call :=
  match ev with
  | Called (time_sleep _) => None
  | Called c => Some c
  | _ => None
  end.

(** The length of the sleep an event records. *)
Definition sleep_of (ev : event) : option Q :=
  match ev with Called (time_sleep d) => Some d | _ => None end.

(** The Selenium calls of a trace, in order. *)
Definition selenium (tr : list event) : list call := omap selenium_of tr.

(** The sleeps of a trace, in order. *)
Definition sleeps (tr : list event) : list Q := omap sleep_of tr.

(** Sending the characters of [text] to [element], one call each. *)
Definition typed (element : WebElement) (text : str) : list call :=
  (λ c, element_send_keys element (KChar c)) <$> text.

(** [ran cs st st']: from [st] to [st'] the program made the Selenium
    calls [cs], and changed neither the sender nor the world. *)
Definition ran (cs : list call) (st st' : State) : Prop :=
  self st' = self st ∧ same_world st st'
  ∧ ∃ evs, trace st' = trace st ++ evs ∧ selenium evs = cs.

(** The Selenium calls of a [search_contact] that finds the contact. *)
Definition search_calls (phone_number : str) : list call :=
  [wait_until SearchBox;
   element_click (Element SearchBox);
   element_clear (Element SearchBox);
   element_clear (Element SearchBox)]
  ++ typed (Element SearchBox) phone_number
  ++ [element_send_keys (Element SearchBox) KReturn;
      driver_find_element AnyMessageBox].

(** The sender object is left as it was. *)
Definition same_self (st st' : State) : Prop := self st' = self st.

(** The recovery of [search_contact] when the chat did not open (lines
    143 to 151): clear the search box and press ESCAPE, under a bare
    [except: pass]; then return False. *)
Definition search_contact_recovery (search_box : WebElement) : M bool :=
  try_except
    (external (element_clear search_box);;
     sleep 0.5;;
     external (element_send_keys search_box KEscape))
    (λ _, Some (mret tt));;
  mret false.

(** The Selenium calls by which [send_message] finds the message box,
    with the box they give: the first lookup, or after a timeout the
    second, or after two timeouts the last resort. *)
Definition message_box_lookups : list (WebElement * list call) :=
  [ (Element MessageBox10, [wait_until MessageBox10]);
    (Element MessageBox1, [wait_until MessageBox10; wait_until MessageBox1]);
    (Element RoleTextbox,
     [wait_until MessageBox10; wait_until MessageBox1;
      driver_find_element RoleTextbox]) ].

(** The Selenium calls that type and send the message in the box. *)
Definition message_calls (message_box : WebElement) (message : str)
    : list call :=
  [element_click message_box; element_clear message_box]
  ++ typed message_box message
  ++ [element_send_keys message_box KReturn].

(** Events that are no Selenium call. *)
Definition no_selenium (ev : event) : Prop := selenium_of ev = None.

(** What [open_whatsapp_web] does up to the end of its wait. *)
Definition login_events : list event :=
  [Printed LOpening; Called driver_get; Printed LWaitingQR;
   Printed LPleaseScan; Called (wait_until SearchBox)].

(** The events of a [setup_driver] that succeeds, for a sender with the
    given [headless]: Chrome is started detached unless headless. *)
Definition setup_events (headless : bool) : list event :=
  [Called ChromeDriverManager_install;
   Called (webdriver_Chrome (negb headless));
   Called driver_execute_script;
   Printed LDriverInitialized].

(** The Selenium calls of a [cleanup] on a sender with the driver [d]. *)
Definition quit_calls (d : option WebDriver) : list call :=
  match d with Some _ => [driver_quit] | None => [] end.

(** The progress line an event records: position, total and recipient
    (line 234). *)
Definition progress_of (ev : event) : option (nat * nat * str) :=
  match ev with
  | Printed (LProcessing i total p) => Some (i, total, p)
  | _ => None
  end.

(** The [i/total] announcements in a trace, with the recipient named. *)
Definition progress (tr : list event) : list (nat * nat * str) :=
  omap progress_of tr.

(** Events that are no progress line. *)
Definition no_progress (ev : event) : Prop := progress_of ev = None.

(** The announcements for numbered entries: one per non-blank entry,
    with the number the entry carries. *)
Definition announced (total : nat) (items : list (nat * str))
    : list (nat * nat * str) :=
  omap (λ item : nat * str,
          if blank item.2 then None else Some (item.1, total, strip item.2))
       items.

(** The browser handles of the sender are left as they were. *)
Definition same_browser (st st' : State) : Prop :=
  driver (self st') = driver (self st) ∧ wait (self st') = wait (self st)
  ∧ headless (self st') = headless (self st).

(** The search box, as opposed to the boxes a message is typed in. *)
Definition is_search_box (el : WebElement) : bool :=
  match el with Element SearchBox => true | _ => false end.

(** The keystroke that submits a message: RETURN sent to an element
    other than the search box (line 202; line 130 is the search box). *)
Definition submits (ev : event) : bool :=
  match ev with
  | Called (element_send_keys el KReturn) => negb (is_search_box el)
  | _ => false
  end.

(** Events other than that keystroke. *)
Definition no_submit (ev : event) : Prop := submits ev = false.

(** [unsent m]: when [m] returns False, no message was submitted; when it
    raises an exception, no message was submitted or the exception is that
    of the submitting keystroke, which is then the last thing [m] did. *)
Definition unsent (m : M bool) : Prop :=
  ∀ st, ∃ evs,
    trace (m st).2 = trace st ++ evs ∧ env (m st).2 = env st
    ∧ match (m st).1 with
      | Ret false => Forall no_submit evs
      | Raise (Exc e) =>
          Forall no_submit evs
          ∨ ∃ evs0 box,
              evs = evs0 ++ [Called (element_send_keys box KReturn)]
              ∧ Forall no_submit evs0
              ∧ env st (trace st ++ evs0) (element_send_keys box KReturn)
                = Throws e
      | _ => True
      end.

(** * Worlds for the examples *)

(** A sender whose browser is up, as after [setup_driver]. *)
Definition ready : Sender :=
  {| driver := Some ChromeDriver; wait := Some {| timeout := 200 |};
     headless := false; results := {| success := []; failed := [] |} |}.

(** A world with the sender [s], the files [files] and the outside
    [outside]; [random.random()] always gives one half. *)
Definition world (s : Sender) (files : str → file)
    (outside : list event → call → reply) : State :=
  {| self := s; fs := files; env := outside;
     rng := λ _, (1 # 2)%Q; draws := 0; trace := [] |}.

Definition no_files : str → file := λ _, Absent.

(** Every call returns. *)
Definition obliging : list event → call → reply := λ _ _, Done.

(** The chat of the second delivery does not open: the contact is not
    found, and [send_message] returns False. *)
Definition second_not_found : list event → call → reply := λ h c,
  match c with
  | driver_find_element AnyMessageBox =>
      if (length (attempts h) =? 2)%nat then Throws NoSuchElementException
      else Done
  | _ => Done
  end.

Definition alice : str := lit "+15551234567".
Definition bob : str := lit "+15559876543".
Definition hi : str := lit "Hi".

(** The click on the message box of the first delivery fails. *)
Definition first_click_breaks : list event → call → reply := λ h c,
  match c with
  | element_click (Element MessageBox10) =>
      if (length (attempts h) =? 1)%nat then Throws WebDriverException
      else Done
  | _ => Done
  end.

(** A file system with one file, [numbers.txt]. *)
Definition one_file (content : str) : str → file := λ path,
  if decide (path = lit "numbers.txt") then Holds content else Absent.

(** The file of the specification's example: two recipients around an
    empty line (the second recipient here with spaces around it). *)
Definition numbers_txt : str :=
  lit "+15551234567" ++ [LF] ++ [LF] ++ lit "  +15559876543  " ++ [LF].

Definition example_args : Args :=
  {| numbers := lit "numbers.txt"; message := hi; arg_headless := false;
     delay_min := 2; delay_max := 5 |}.

(** Chrome cannot be installed. *)
Definition no_chrome : list event → call → reply := λ _ c,
  match c with
  | ChromeDriverManager_install => Throws WebDriverException
  | _ => Done
  end.

(** The login is not completed in time. *)
Definition no_login : list event → call → reply := λ _ c,
  match c with
  | wait_until SearchBox => Throws TimeoutException
  | _ => Done
  end.


(** An interrupt that arrives while [search_contact] recovers from a
    contact it did not find is taken by the bare [except] there: the run
    goes on to the next recipient.  The claim above leaves these out. *)
Definition interrupt_in_recovery : list event → call → reply := λ h c,
  match c, last h with
  | driver_find_element _, _ => Throws NoSuchElementException
  | element_clear _, Some (Called (driver_find_element _)) => Interrupted
  | _, _ => Done
  end.

(** * Properties *)

(** ** Examples of stripping and of reading lines *)

Example strip_ex : strip (lit "  +1555 123 " ++ [LF]) = lit "+1555 123".
Proof. reflexivity. Qed.

Example file_lines_ex :
  file_lines (lit "a" ++ [CR; LF] ++ lit "b") = [lit "a" ++ [LF]; lit "b"].
Proof. reflexivity. Qed.

(** ** Stripping *)

Section Strip.
Implicit Types s : str.

Lemma lstrip_split s :
  ∃ ws, s = ws ++ lstrip s ∧ blank ws = true.
Proof.
  induction s as [|c s [ws [Hs Hws]]]; simpl.
  - by exists [].
  - destruct (isspace c) eqn:Hc.
    + exists (c :: ws). split; [by rewrite <- app_comm_cons, <- Hs|].
      simpl. by rewrite Hc.
    + by exists [].
Qed.

Lemma lstrip_head s c : head (lstrip s) = Some c → isspace c = false.
Proof.
  induction s as [|d s IH]; simpl; [done|].
  destruct (isspace d) eqn:Hd; [done|].
  simpl. by intros [= <-].
Qed.

Lemma lstrip_blank s : blank s = true → lstrip s = [].
Proof.
  induction s as [|c s IH]; simpl; [done|].
  intros [Hc Hs]%andb_prop. rewrite Hc. auto.
Qed.

Lemma lstrip_keeps s :
  (∀ c, head s = Some c → isspace c = false) → lstrip s = s.
Proof.
  destruct s as [|c s]; simpl; [done|].
  intros H. by rewrite (H c eq_refl).
Qed.

Lemma blank_app s1 s2 : blank (s1 ++ s2) = blank s1 && blank s2.
Proof. apply forallb_app. Qed.

Lemma blank_reverse s : blank (reverse s) = blank s.
Proof.
  induction s as [|c s IH]; [done|].
  rewrite reverse_cons, blank_app, IH. simpl.
  rewrite andb_true_r. apply andb_comm.
Qed.

(** The line is its stripped form between two runs of whitespace. *)
Lemma strip_split s :
  ∃ ws1 ws2, s = ws1 ++ strip s ++ ws2
             ∧ blank ws1 = true ∧ blank ws2 = true.
Proof.
  destruct (lstrip_split s) as [ws1 [H1 Hb1]].
  destruct (lstrip_split (reverse (lstrip s))) as [ws2 [H2 Hb2]].
  exists ws1, (reverse ws2). unfold strip, rstrip.
  split; [|split; [done | by rewrite blank_reverse]].
  rewrite <- reverse_app, <- H2, reverse_involutive. exact H1.
Qed.

Lemma strip_nil_iff s : strip s = [] ↔ blank s = true.
Proof.
  split.
  - intros Hnil.
    destruct (strip_split s) as (ws1 & ws2 & Hs & Hb1 & Hb2).
    rewrite Hs, Hnil, !blank_app, Hb1, Hb2. done.
  - intros Hb. unfold strip, rstrip. by rewrite (lstrip_blank _ Hb).
Qed.

Lemma truthy_strip s : truthy (strip s) = negb (blank s).
Proof.
  destruct (blank s) eqn:Hb.
  - apply strip_nil_iff in Hb. by rewrite Hb.
  - destruct (strip s) eqn:Hs; [|done].
    apply strip_nil_iff in Hs. congruence.
Qed.

Lemma strip_trimmed s : blank s = false → trimmed (strip s).
Proof.
  intros Hb.
  assert (strip s ≠ []) as Hne.
  { intros H%strip_nil_iff. congruence. }
  split; [done|]. split.
  - intros c Hc.
    destruct (lstrip_split (reverse (lstrip s))) as [ws2 [H2 _]].
    apply (f_equal reverse) in H2.
    rewrite reverse_involutive, reverse_app in H2.
    fold (rstrip (lstrip s)) in H2. fold (strip s) in H2.
    apply (lstrip_head s). rewrite H2.
    destruct (strip s); [done|]. exact Hc.
  - intros c Hc. unfold strip, rstrip in Hc.
    rewrite last_reverse in Hc. by apply lstrip_head in Hc.
Qed.

Lemma strip_of_trimmed s : trimmed s → strip s = s.
Proof.
  intros (Hne & Hh & Hl). unfold strip, rstrip.
  rewrite (lstrip_keeps s Hh).
  rewrite lstrip_keeps; [apply reverse_involutive|].
  intros c. rewrite head_reverse. apply Hl.
Qed.

Lemma trimmed_not_blank s : trimmed s → blank s = false.
Proof.
  intros (Hne & Hh & _). destruct s as [|c s]; [done|].
  simpl. by rewrite (Hh c eq_refl).
Qed.

(** The list comprehension of [read_phone_numbers] keeps the
    recipients of its input. *)
Lemma strip_nonempty_recipients (f : list str) :
  strip_nonempty f = recipients f.
Proof.
  unfold recipients. induction f as [|l f IH]; simpl; [done|].
  rewrite truthy_strip. destruct (blank l); simpl; by rewrite IH.
Qed.

Lemma recipients_app (l1 l2 : list str) :
  recipients (l1 ++ l2) = recipients l1 ++ recipients l2.
Proof. unfold recipients. by rewrite List.filter_app, List.map_app. Qed.

Lemma recipients_trimmed (l : list str) : Forall trimmed (recipients l).
Proof.
  unfold recipients. induction l as [|e l IH]; simpl; [constructor|].
  destruct (blank e) eqn:Hb; simpl; [done|].
  constructor; [by apply strip_trimmed | done].
Qed.

Lemma recipients_length (l : list str) :
  length (recipients l) = length (List.filter (λ e, negb (blank e)) l).
Proof. unfold recipients. apply length_map. Qed.

(** Recipients of recipients: nothing more to drop or to strip. *)
Lemma recipients_idemp (l : list str) : recipients (recipients l) = recipients l.
Proof.
  pose proof (recipients_trimmed l) as H.
  induction H as [|x r Hx _ IH]; [done|].
  unfold recipients in *. simpl.
  rewrite (trimmed_not_blank _ Hx). simpl.
  by rewrite (strip_of_trimmed _ Hx), IH.
Qed.
End Strip.

(** ** Lines of a file *)


Lemma split_lines_nonempty (s : str) : Forall (λ l, l ≠ []) (split_lines s).
Proof.
  induction s as [|c s IH]; simpl; [constructor|].
  destruct (N.eqb c LF); [by constructor|].
  destruct (split_lines s) as [|l ls]; [by repeat constructor|].
  inversion IH; subst. by constructor.
Qed.

(** ** Reasoning about actions *)

Lemma bind_run {A B} (m : M A) (k : A → M B) (st : State) :
  (m ≫= k) st = match m st with
                | (Ret a, st1) => k a st1
                | (Raise e, st1) => (Raise e, st1)
                end.
Proof. reflexivity. Qed.

Lemma for_each_app {A} (l1 l2 : list A) (body : A → M unit) (st : State) :
  for_each (l1 ++ l2) body st = (for_each l1 body;; for_each l2 body) st.
Proof.
  revert st. induction l1 as [|x l1 IH]; intros st; [done|].
  simpl. rewrite !bind_run. destruct (body x st) as [[[]|e] st1]; [|done].
  rewrite IH. by rewrite bind_run.
Qed.

Lemma enumerate_app {A} (l1 l2 : list A) (i : nat) :
  enumerate (l1 ++ l2) i = enumerate l1 i ++ enumerate l2 (i + length l1).
Proof.
  revert i. induction l1 as [|x l1 IH]; intros i; simpl.
  - by rewrite Nat.add_0_r.
  - rewrite IH. do 3 f_equal. lia.
Qed.

#[global] Instance same_world_preorder : PreOrder same_world.
Proof.
  split.
  - by intros st.
  - intros a b c (?&?&?) (?&?&?). unfold same_world. repeat split; congruence.
Qed.

#[global] Instance quiet_preorder P : PreOrder (quiet P).
Proof.
  split.
  - intros st. split; [done|]. split; [reflexivity|].
    exists []. by rewrite app_nil_r.
  - intros a b c (Hr1 & Hw1 & evs1 & Ht1 & HP1) (Hr2 & Hw2 & evs2 & Ht2 & HP2).
    split; [congruence|]. split; [by etrans|].
    exists (evs1 ++ evs2). split; [|by apply Forall_app].
    by rewrite Ht2, Ht1, app_assoc.
Qed.

#[global] Instance grows_preorder : PreOrder grows.
Proof.
  split.
  - by intros st.
  - intros a b c [? ?] [? ?]. split; by etrans.
Qed.

Lemma quiet_weaken (P P' : event → Prop) st st' :
  (∀ ev, P ev → P' ev) → quiet P st st' → quiet P' st st'.
Proof.
  intros HPP (Hr & Hw & evs & Ht & HP). repeat split; try done; try apply Hw.
  exists evs. split; [done|]. eapply Forall_impl; eauto.
Qed.

Lemma quiet_grows P st st' : quiet P st st' → grows st st'.
Proof. intros (Hr & _). unfold grows. by rewrite Hr. Qed.

Section Inv.
Context (R : relation State) `{!PreOrder R}.

Lemma inv_ret {A} (a : A) : inv R (mret a).
Proof. intros st. simpl. reflexivity. Qed.

Lemma inv_raise {A} (e : raised) : inv R (@raise A e).
Proof. intros st. simpl. reflexivity. Qed.

Lemma inv_get_self : inv R get_self.
Proof. intros st. simpl. reflexivity. Qed.

Lemma inv_bind {A B} (m : M A) (k : A → M B) :
  inv R m → (∀ a, inv R (k a)) → inv R (m ≫= k).
Proof.
  intros Hm Hk st. rewrite bind_run. specialize (Hm st).
  destruct (m st) as [[a|e] st1]; simpl in *; [|done].
  etrans; [exact Hm | apply Hk].
Qed.

Lemma inv_try_except {A} (body : M A) clauses :
  inv R body → (∀ e h, clauses e = Some h → inv R h) →
  inv R (try_except body clauses).
Proof.
  intros Hb Hc st. unfold try_except. specialize (Hb st).
  destruct (body st) as [[a|e] st1]; simpl in *; [done|].
  destruct (clauses e) as [h|] eqn:He; [|done].
  etrans; [exact Hb | by eapply Hc].
Qed.

Lemma inv_try_finally {A} (body : M A) (final : M unit) :
  inv R body → inv R final → inv R (try_finally body final).
Proof.
  intros Hb Hf st. unfold try_finally. specialize (Hb st).
  destruct (body st) as [r st1]. specialize (Hf st1).
  destruct (final st1) as [[[]|e] st2]; simpl in *; by etrans.
Qed.

Lemma inv_for_each {A} (l : list A) (body : A → M unit) :
  (∀ x, inv R (body x)) → inv R (for_each l body).
Proof.
  intros Hb. induction l as [|x l IH]; simpl.
  - apply inv_ret.
  - apply inv_bind; [apply Hb | done].
Qed.
End Inv.

Lemma fine_env {A} (st st' : State) (r : result A) :
  env st' = env st → fine st' r → fine st r.
Proof.
  intros He. destruct r as [|[| |]]; simpl; try done.
  unfold calm. by rewrite He.
Qed.

Section Clean.
Lemma clean_ret {A} (a : A) : clean (mret a).
Proof. by intros st. Qed.

Lemma clean_raise_exc {A} (e : exception) : clean (@raise A (Exc e)).
Proof. by intros st. Qed.

Lemma clean_get_self : clean get_self.
Proof. by intros st. Qed.

Lemma clean_modify_self f : clean (modify_self f).
Proof. by intros st. Qed.

Lemma clean_emit ev : clean (emit ev).
Proof. by intros st. Qed.

Lemma clean_print l : clean (print l).
Proof. by intros st. Qed.

Lemma clean_random_uniform a b : clean (random_uniform a b).
Proof. by intros st. Qed.

Lemma clean_external c : clean (external c).
Proof.
  intros st. unfold external.
  destruct (env st (trace st) c) eqn:He; simpl; split; try done.
  intros Hcalm. by apply (Hcalm (trace st) c).
Qed.

Lemma clean_sleep d : clean (sleep d).
Proof.
  intros st. unfold sleep. destruct (negb _); [done|].
  destruct (env st (trace st) _) eqn:He; simpl; split; try done.
  intros Hcalm. by apply (Hcalm (trace st) (time_sleep d)).
Qed.

Lemma clean_bind {A B} (m : M A) (k : A → M B) :
  clean m → (∀ a, clean (k a)) → clean (m ≫= k).
Proof.
  intros Hm Hk st. rewrite bind_run. destruct (Hm st) as [He Hf].
  destruct (m st) as [[a|e] st1]; simpl in *; [|done].
  destruct (Hk a st1) as [He' Hf']. split; [congruence|].
  by eapply fine_env.
Qed.

Lemma clean_try_except {A} (body : M A) clauses :
  clean body → (∀ e h, clauses e = Some h → clean h) →
  clean (try_except body clauses).
Proof.
  intros Hb Hc st. unfold try_except. destruct (Hb st) as [He Hf].
  destruct (body st) as [[a|e] st1]; simpl in *; [done|].
  destruct (clauses e) as [h|] eqn:Hcl; [|done].
  destruct (Hc e h Hcl st1) as [He' Hf']. split; [congruence|].
  by eapply fine_env.
Qed.

Lemma clean_for_each {A} (l : list A) (body : A → M unit) :
  (∀ x, clean (body x)) → clean (for_each l body).
Proof.
  intros Hb. induction l as [|x l IH]; simpl.
  - apply clean_ret.
  - apply clean_bind; [apply Hb | done].
Qed.
End Clean.

(** *** The primitive actions *)

Section Primitives.
Context (P : event → Prop).

Lemma quiet_log ev st : P ev → quiet P st (log ev st).
Proof.
  intros HP. split; [done|]. split; [done|].
  exists [ev]. split; [done | by constructor].
Qed.

Lemma inv_quiet_emit ev : P ev → inv (quiet P) (emit ev).
Proof. intros HP st. by apply quiet_log. Qed.

Lemma inv_quiet_print l : P (Printed l) → inv (quiet P) (print l).
Proof. apply inv_quiet_emit. Qed.

Lemma inv_quiet_external c : P (Called c) → inv (quiet P) (external c).
Proof.
  intros HP st. unfold external.
  destruct (env st (trace st) c); by apply quiet_log.
Qed.

Lemma inv_quiet_sleep d : P (Called (time_sleep d)) → inv (quiet P) (sleep d).
Proof.
  intros HP st. unfold sleep. destruct (negb _); [reflexivity|].
  destruct (env st (trace st) _); by apply quiet_log.
Qed.

Lemma inv_quiet_random_uniform a b : inv (quiet P) (random_uniform a b).
Proof.
  intros st. split; [done|]. split; [done|].
  exists []. split; [by rewrite app_nil_r | constructor].
Qed.

Lemma inv_quiet_modify_self f :
  (∀ s, results (f s) = results s) → inv (quiet P) (modify_self f).
Proof.
  intros Hf st. split; [apply Hf|]. split; [done|].
  exists []. split; [by rewrite app_nil_r | constructor].
Qed.
End Primitives.

Lemma inv_grows_of_quiet {A} P (m : M A) : inv (quiet P) m → inv grows m.
Proof. intros H st. eapply quiet_grows, H. Qed.

Lemma inv_grows_append_success p : inv grows (modify_self (append_success p)).
Proof.
  intros st. split; simpl; [by apply prefix_app_r | done].
Qed.

Lemma inv_grows_append_failed p : inv grows (modify_self (append_failed p)).
Proof.
  intros st. split; simpl; [done | by apply prefix_app_r].
Qed.

Lemma browser_no_delivery ev : browser ev → no_delivery ev.
Proof. by destruct ev. Qed.

Create HintDb act discriminated.

#[global] Hint Resolve inv_quiet_print inv_quiet_external inv_quiet_emit
  inv_quiet_random_uniform inv_quiet_modify_self inv_quiet_sleep clean_sleep
  clean_ret clean_raise_exc clean_get_self clean_modify_self clean_emit
  clean_print clean_random_uniform clean_external : act.
#[global] Hint Extern 1 (browser _) => exact I : act.
#[global] Hint Extern 1 (no_delivery _) => exact I : act.
#[global] Hint Extern 1 (results _ = results _) => reflexivity : act.

(** Walks through an action built from binds, handlers and loops. *)
Ltac act_clauses :=
  let e := fresh "e" in let h := fresh "h" in let H := fresh "H" in
  intros e h H; repeat case_match; simplify_eq.

Ltac act_step :=
  lazymatch goal with
  | |- inv _ (mret _) => apply inv_ret; apply _
  | |- inv _ (raise _) => apply inv_raise; apply _
  | |- inv _ (sys_exit _) => apply inv_raise; apply _
  | |- inv _ get_self => apply inv_get_self; apply _
  | |- inv _ (_ ≫= _) => apply inv_bind; [apply _ | | intros ?]
  | |- inv _ (try_except _ _) =>
      apply inv_try_except; [apply _ | | act_clauses]
  | |- inv _ (try_finally _ _) => apply inv_try_finally; [apply _ | | ]
  | |- inv _ (for_each _ _) => apply inv_for_each; [apply _ | intros ?]
  | |- clean (_ ≫= _) => apply clean_bind; [ | intros ?]
  | |- clean (try_except _ _) => apply clean_try_except; [ | act_clauses]
  | |- clean (for_each _ _) => apply clean_for_each; intros ?
  | |- inv _ (match ?x with _ => _ end) => destruct x
  | |- clean (match ?x with _ => _ end) => destruct x
  end.

Ltac act := repeat act_step; eauto with act.

(** ** The browser layer stays below the dispatch loop *)

Section BrowserLayer.
Context (P : event → Prop) (HP : ∀ ev, browser ev → P ev).

Local Hint Extern 1 (P _) => (apply HP; exact I) : act.

Lemma self_driver_quiet : inv (quiet P) self_driver.
Proof. unfold self_driver. act. Qed.

Lemma self_wait_quiet : inv (quiet P) self_wait.
Proof. unfold self_wait. act. Qed.

Lemma self_wait_until_quiet l : inv (quiet P) (self_wait_until l).
Proof. unfold self_wait_until. act. apply self_wait_quiet. Qed.

Lemma self_driver_find_element_quiet l :
  inv (quiet P) (self_driver_find_element l).
Proof. unfold self_driver_find_element. act. apply self_driver_quiet. Qed.

Lemma human_type_quiet el text a b : inv (quiet P) (human_type el text a b).
Proof. unfold human_type. act. Qed.

Local Hint Resolve self_driver_quiet self_wait_quiet self_wait_until_quiet
  self_driver_find_element_quiet human_type_quiet : act.

Lemma search_contact_quiet phone : inv (quiet P) (search_contact phone).
Proof. unfold search_contact. act. Qed.
End BrowserLayer.

Lemma self_driver_clean : clean self_driver.
Proof. unfold self_driver. act. Qed.

Lemma self_wait_clean : clean self_wait.
Proof. unfold self_wait. act. Qed.

#[global] Hint Resolve self_driver_clean self_wait_clean : act.

Lemma self_wait_until_clean l : clean (self_wait_until l).
Proof. unfold self_wait_until. act. Qed.

Lemma self_driver_find_element_clean l : clean (self_driver_find_element l).
Proof. unfold self_driver_find_element. act. Qed.

Lemma human_type_clean el text a b : clean (human_type el text a b).
Proof. unfold human_type. act. Qed.

#[global] Hint Resolve self_wait_until_clean self_driver_find_element_clean
  human_type_clean : act.

Lemma search_contact_clean phone : clean (search_contact phone).
Proof. unfold search_contact. act. Qed.

#[global] Hint Resolve search_contact_clean : act.

(** ** What the trace shows of the dispatch *)

Lemma attempts_app t1 t2 : attempts (t1 ++ t2) = attempts t1 ++ attempts t2.
Proof. apply omap_app. Qed.
Lemma outcomes_app t1 t2 : outcomes (t1 ++ t2) = outcomes t1 ++ outcomes t2.
Proof. apply omap_app. Qed.
Lemma pauses_app t1 t2 : pauses (t1 ++ t2) = pauses t1 ++ pauses t2.
Proof. apply omap_app. Qed.

Lemma sent_to_app o1 o2 : sent_to (o1 ++ o2) = sent_to o1 ++ sent_to o2.
Proof. unfold sent_to. by rewrite List.filter_app, List.map_app. Qed.
Lemma not_sent_to_app o1 o2 :
  not_sent_to (o1 ++ o2) = not_sent_to o1 ++ not_sent_to o2.
Proof. unfold not_sent_to. by rewrite List.filter_app, List.map_app. Qed.

Lemma browser_hidden evs :
  Forall browser evs →
  attempts evs = [] ∧ outcomes evs = [] ∧ pauses evs = [].
Proof.
  induction 1 as [|ev evs Hev _ (IH1 & IH2 & IH3)]; [done|].
  change (ev :: evs) with ([ev] ++ evs).
  rewrite attempts_app, outcomes_app, pauses_app, IH1, IH2, IH3.
  by destruct ev as [c|[]|]; simpl in *.
Qed.

Lemma shows_quiet {A} (m : M A) f :
  inv (quiet browser) m → clean m → (∀ r, f r = []) → shows m f.
Proof.
  intros Hq Hc Hf st.
  destruct (Hq st) as (Hr & Hw & evs & Ht & Hb).
  destruct (Hc st) as [_ Hfine].
  destruct (browser_hidden evs Hb) as (Ha & Ho & Hp).
  repeat split; try done; try apply Hw.
  exists evs. by rewrite Hf.
Qed.

Lemma shows_bind {A B} (m : M A) (k : A → M B) f :
  inv (quiet browser) m → clean m →
  (∀ a, shows (k a) f) → (∀ e, f (Raise e) = []) →
  shows (m ≫= k) f.
Proof.
  intros Hq Hc Hk Hf st. rewrite bind_run.
  destruct (Hq st) as (Hr & Hw & evs & Ht & Hb).
  destruct (Hc st) as [Henv Hfine].
  destruct (browser_hidden evs Hb) as (Ha & Ho & Hp).
  destruct (m st) as [[a|e] st1]; simpl in *.
  - destruct (Hk a st1) as (Hr' & Hw' & Hfine' & evs' & Ht' & Ha' & Hp' & Ho').
    split; [congruence|]. split; [by etrans|].
    split; [by eapply fine_env|].
    exists (evs ++ evs').
    rewrite attempts_app, pauses_app, outcomes_app, Ha, Ho, Hp, Ha', Hp', Ho'.
    by rewrite Ht', Ht, app_assoc.
  - repeat split; try done; try apply Hw.
    exists evs. by rewrite Hf.
Qed.

Lemma shows_print_ret {A} (l : line) (a : A) f :
  pauses [Printed l] = [] →
  f (Ret a) = outcomes [Printed l] →
  shows (print l;; mret a) f.
Proof.
  intros Hp Hf st. simpl. repeat split; try done.
  by exists [Printed l].
Qed.

Lemma send_message_try_shows phone message :
  shows (send_message_try phone message) (reported phone).
Proof.
  unfold send_message_try.
  apply shows_bind; [by apply search_contact_quiet | act | | done].
  intros [|]; simpl.
  - repeat (apply shows_bind;
            [solve [act; auto using self_wait_until_quiet,
                      self_driver_find_element_quiet, human_type_quiet]
            | solve [act] | intros ? | done]).
    by apply shows_print_ret.
  - by apply shows_print_ret.
Qed.


Lemma print_ret_run {A} (l : line) (a : A) (st : State) :
  (print l;; mret a) st = (Ret a, log (Printed l) st).
Proof. reflexivity. Qed.

Lemma send_message_except_exc phone e :
  send_message_except phone (Exc e)
  = Some (print (absorbed_line phone e);; mret false).
Proof. by destruct e. Qed.

Lemma outcomes_absorbed phone e :
  outcomes [Printed (absorbed_line phone e)] = [(phone, absorbed e)]
  ∧ pauses [Printed (absorbed_line phone e)] = []
  ∧ is_sent (absorbed e) = false.
Proof. by destruct e. Qed.

Lemma send_message_spec phone message st :
  let r := (send_message phone message st).1 in
  let st' := (send_message phone message st).2 in
  results (self st') = results (self st)
  ∧ same_world st st'
  ∧ ∃ evs, trace st' = trace st ++ evs
      ∧ attempts evs = [(phone, message)] ∧ pauses evs = []
      ∧ match r with
        | Ret b => ∃ o, outcomes evs = [(phone, o)] ∧ b = is_sent o
        | Raise e => e = KeyboardInterrupt ∧ ¬ calm st ∧ outcomes evs = []
        end.
Proof.
  unfold send_message. rewrite bind_run.
  change (emit (Deliver phone message) st)
    with (Ret (), log (Deliver phone message) st).
  set (st0 := log (Deliver phone message) st).
  destruct (send_message_try_shows phone message st0)
    as (Hr & Hw & Hfine & evs & Ht & Ha & Hp & Ho).
  change (trace st0) with (trace st ++ [Deliver phone message]) in Ht.
  unfold try_except.
  destruct (send_message_try phone message st0) as [[b|[e| |c]] st1];
    cbn [fst snd] in *.
  - split; [done|]. split; [done|].
    exists (Deliver phone message :: evs).
    split; [by rewrite Ht, <- app_assoc|].
    change (Deliver phone message :: evs) with ([Deliver phone message] ++ evs).
    rewrite attempts_app, pauses_app, outcomes_app, Ha, Hp, Ho.
    split; [done|]. split; [done|].
    destruct b; [by exists Sent | by exists NotFound].
  - rewrite send_message_except_exc.
    destruct (outcomes_absorbed phone e) as (Hoa & Hpa & Hsa).
    rewrite print_ret_run. cbn [fst snd log self trace].
    split; [done|]. split; [done|].
    exists ([Deliver phone message] ++ evs ++ [Printed (absorbed_line phone e)]).
    split; [by rewrite Ht, <- !app_assoc|].
    rewrite !attempts_app, !pauses_app, !outcomes_app, Ha, Hp, Ho, Hoa, Hpa.
    split; [done|]. split; [done|].
    by exists (absorbed e).
  - simpl. split; [done|]. split; [done|].
    exists (Deliver phone message :: evs).
    split; [by rewrite Ht, <- app_assoc|].
    change (Deliver phone message :: evs) with ([Deliver phone message] ++ evs).
    rewrite attempts_app, pauses_app, outcomes_app, Ha, Hp, Ho.
    repeat split; try done.
  - done.
Qed.

(** ** One round of the dispatch loop *)

Lemma pause_spec i total a b st :
  let r := (pause i total a b st).1 in
  let st' := (pause i total a b st).2 in
  self st' = self st ∧ same_world st st'
  ∧ ∃ evs, trace st' = trace st ++ evs
      ∧ attempts evs = [] ∧ outcomes evs = []
      ∧ Forall (λ d, ∃ k, d = uniform a b (rng st k)) (pauses evs)
      ∧ match r with
        | Ret _ => length (pauses evs) = if (i <? total)%nat then 1 else 0
        | Raise _ => upset a b st
        end.
Proof.
  unfold pause. destruct (i <? total)%nat; simpl.
  - unfold mbind, M_bind, random_uniform, print, emit, sleep, raise.
    cbv beta iota. set (d := uniform a b (rng st (draws st))).
    destruct (Qle_bool 0 d) eqn:Hle; simpl.
    + match goal with
      | |- context [env ?s ?h ?c] => destruct (env s h c) eqn:Henv
      end; simpl;
        (split; [done|]; split; [done|];
         exists [Printed (LWaiting d); Called (time_sleep d)];
         split; [by rewrite <- app_assoc|];
         split; [done|]; split; [done|];
         split; [repeat constructor; by eexists|]); try done.
      left. intros Hcalm. by eapply Hcalm.
    + split; [done|]. split; [done|].
      exists [Printed (LWaiting d)].
      split; [done|]. split; [done|]. split; [done|].
      split; [repeat constructor; by eexists|].
      right. exists (draws st). fold d. apply Qnot_le_lt.
      intros H%Qle_bool_iff. congruence.
  - split; [done|]. split; [done|]. exists [].
    by rewrite app_nil_r.
Qed.

Lemma dispatched_nothing message a b st : dispatched message a b st st [] [].
Proof.
  split; try done; simpl; by rewrite app_nil_r.
Qed.

Lemma dispatched_then message a b st st1 st2 evs1 evs2 tried1 tried2 :
  dispatched message a b st st1 evs1 tried1 →
  (outcomes evs1).*1 = tried1 →
  dispatched message a b st1 st2 evs2 tried2 →
  dispatched message a b st st2 (evs1 ++ evs2) (tried1 ++ tried2).
Proof.
  intros [Hw1 Ht1 Ha1 Ho1 Hs1 Hf1 Hp1] Hall [Hw2 Ht2 Ha2 Ho2 Hs2 Hf2 Hp2].
  split.
  - by etrans.
  - by rewrite Ht2, Ht1, app_assoc.
  - by rewrite attempts_app, Ha1, Ha2, fmap_app.
  - rewrite outcomes_app, fmap_app, Hall. by apply prefix_app.
  - by rewrite Hs2, Hs1, outcomes_app, sent_to_app, app_assoc.
  - by rewrite Hf2, Hf1, outcomes_app, not_sent_to_app, app_assoc.
  - rewrite pauses_app. apply Forall_app. split; [done|].
    destruct Hw1 as (_ & _ & Hrng). by rewrite Hrng in Hp2.
Qed.

Lemma upset_later a b st st' : same_world st st' → upset a b st' → upset a b st.
Proof.
  intros (_ & Henv & Hrng) [Hc|[k Hk]].
  - left. unfold calm in *. by rewrite Henv in Hc.
  - right. exists k. by rewrite Hrng in Hk.
Qed.

Lemma recipients_one entry :
  recipients [entry] = if blank entry then [] else [strip entry].
Proof. unfold recipients. simpl. by destruct (blank entry). Qed.

Lemma record_run (ok : bool) p st :
  (if ok then modify_self (append_success p)
   else modify_self (append_failed p)) st
  = (Ret tt, set_self ((if ok then append_success p else append_failed p)
                         (self st)) st).
Proof. by destruct ok. Qed.

Lemma round_spec total message a b i entry st :
  let m := send_bulk_messages_round total message a b (i, entry) in
  ∃ evs, dispatched message a b st (m st).2 evs (recipients [entry])
    ∧ match (m st).1 with
      | Ret _ =>
          (outcomes evs).*1 = recipients [entry]
          ∧ length (pauses evs)
            = (if blank entry then 0 else if (i <? total)%nat then 1 else 0)
      | Raise _ => upset a b st
      end.
Proof.
  intros m. subst m. unfold send_bulk_messages_round. cbn [fst snd].
  rewrite truthy_strip, recipients_one.
  destruct (blank entry) eqn:Hb; cbn [negb].
  { exists []. split; [apply dispatched_nothing | done]. }
  set (p := strip entry). rewrite bind_run.
  change (print (LProcessing i total p) st)
    with (Ret (), log (Printed (LProcessing i total p)) st).
  cbv beta iota. set (st0 := log (Printed (LProcessing i total p)) st).
  rewrite bind_run.
  destruct (send_message_spec p message st0)
    as (Hr & Hw & evs1 & Ht & Ha & Hp & Hres).
  change (trace st0) with (trace st ++ [Printed (LProcessing i total p)]) in Ht.
  change (results (self st0)) with (results (self st)) in Hr.
  assert (same_world st st0) as Hw0 by done.
  destruct (send_message p message st0) as [[ok|e] st1]; cbn [fst snd] in *.
  - destruct Hres as (o & Ho & Hok).
    rewrite bind_run, record_run.
    set (st2 := set_self _ st1).
    destruct (pause_spec i total a b st2)
      as (Hself & Hw2 & evs2 & Ht2 & Ha2 & Ho2 & Hp2 & Hres2).
    assert (same_world st st2) as Hw02 by (by etrans).
    assert (rng st2 = rng st) as Hrng by apply Hw02.
    exists ([Printed (LProcessing i total p)] ++ evs1 ++ evs2). split.
    + split.
      * by etrans.
      * rewrite Ht2. change (trace st2) with (trace st1).
        by rewrite Ht, <- !app_assoc.
      * by rewrite !attempts_app, Ha, Ha2.
      * by rewrite !outcomes_app, Ho, Ho2.
      * rewrite Hself, !outcomes_app, Ho, Ho2. subst st2. simpl.
        unfold sent_to. simpl. destruct ok, (is_sent o); simpl; try done;
          rewrite ?app_nil_r; by rewrite Hr.
      * rewrite Hself, !outcomes_app, Ho, Ho2. subst st2. simpl.
        unfold not_sent_to. simpl. destruct ok, (is_sent o); simpl; try done;
          rewrite ?app_nil_r; by rewrite Hr.
      * rewrite !pauses_app, Hp. simpl. by rewrite Hrng in Hp2.
    + destruct (pause i total a b st2).1.
      * rewrite !outcomes_app, !pauses_app, Ho, Ho2, Hp. by simpl.
      * by eapply upset_later.
  - destruct Hres as (-> & Hcalm & Ho).
    exists ([Printed (LProcessing i total p)] ++ evs1). split.
    + split.
      * by etrans.
      * by rewrite Ht, <- !app_assoc.
      * by rewrite !attempts_app, Ha.
      * rewrite !outcomes_app, Ho. simpl. apply prefix_nil.
      * rewrite !outcomes_app, Ho. simpl. by rewrite app_nil_r, Hr.
      * rewrite !outcomes_app, Ho. simpl. by rewrite app_nil_r, Hr.
      * rewrite !pauses_app, Hp. simpl. constructor.
    + by left.
Qed.

(** ** The dispatch loop *)

Lemma dispatch_loop_spec total message a b entries i st :
  let m := dispatch_loop total message a b i entries in
  ∃ evs tried,
    dispatched message a b st (m st).2 evs tried
    ∧ tried `prefix_of` recipients entries
    ∧ match (m st).1 with
      | Ret _ =>
          tried = recipients entries
          ∧ (outcomes evs).*1 = recipients entries
          ∧ length (pauses evs)
            = length (List.filter (pausing total) (enumerate entries i))
      | Raise _ => upset a b st
      end.
Proof.
  revert i st. induction entries as [|entry entries IH]; intros i st.
  { exists [], []. split; [apply dispatched_nothing | done]. }
  unfold dispatch_loop. cbn [enumerate for_each]. rewrite bind_run.
  destruct (round_spec total message a b i entry st) as (evs1 & Hd1 & Hres1).
  cbv zeta in Hres1.
  destruct (send_bulk_messages_round total message a b (i, entry) st)
    as [[[]|e] st1]; cbn [fst snd] in *.
  - destruct Hres1 as [Hall1 Hp1].
    destruct (IH (S i) st1) as (evs2 & tried2 & Hd2 & Hpre2 & Hres2).
    cbv zeta in Hd2, Hres2. fold (dispatch_loop total message a b (S i) entries).
    exists (evs1 ++ evs2), (recipients [entry] ++ tried2).
    change (entry :: entries) with ([entry] ++ entries).
    rewrite recipients_app.
    split; [by eapply dispatched_then|]. split; [by apply prefix_app|].
    destruct (dispatch_loop total message a b (S i) entries st1).1.
    + destruct Hres2 as (-> & Hall2 & Hp2). split; [done|].
      rewrite outcomes_app, fmap_app, Hall1, Hall2. split; [done|].
      rewrite pauses_app, length_app, Hp1, Hp2. simpl. unfold pausing at 2.
      simpl. by destruct (blank entry), (i <? total)%nat.
    + eapply upset_later; [apply Hd1 | done].
  - exists evs1, (recipients [entry]).
    change (entry :: entries) with ([entry] ++ entries).
    rewrite recipients_app.
    split; [done|]. split; [by apply prefix_app_r | done].
Qed.

(** ** Invariants of the whole dispatch *)

#[global] Instance traced_preorder P : PreOrder (traced P).
Proof.
  split.
  - intros st. exists []. by rewrite app_nil_r.
  - intros a b c (evs1 & Ht1 & HP1) (evs2 & Ht2 & HP2).
    exists (evs1 ++ evs2). split; [|by apply Forall_app].
    by rewrite Ht2, Ht1, app_assoc.
Qed.

Lemma quiet_traced P st st' : quiet P st st' → traced P st st'.
Proof. by intros (_ & _ & H). Qed.

Lemma inv_traced_of_quiet {A} P (m : M A) : inv (quiet P) m → inv (traced P) m.
Proof. intros H st. eapply quiet_traced, H. Qed.

Lemma inv_traced_modify_self P f : inv (traced P) (modify_self f).
Proof. intros st. exists []. by rewrite app_nil_r. Qed.

Lemma browser_no_summary ev : browser ev → no_summary ev.
Proof. by destruct ev as [|[]|]. Qed.

#[global] Hint Resolve browser_no_summary browser_no_delivery : act.
#[global] Hint Extern 1 (no_summary _) => (exact I || reflexivity) : act.

Section SendMessage.
Context (P : event → Prop) (HP : ∀ ev, browser ev → P ev).
Context (HD : ∀ p m, P (Deliver p m)).
Context (HO : ∀ l, outcome_of (Printed l) ≠ None → P (Printed l)).

Local Hint Extern 1 (P (Called _)) => (apply HP; exact I) : act.
Local Hint Extern 1 (P (Deliver _ _)) => apply HD : act.
Local Hint Extern 1 (P (Printed _)) => (apply HO; discriminate) : act.
Local Hint Resolve self_wait_until_quiet self_driver_find_element_quiet
  human_type_quiet search_contact_quiet : act.

Lemma send_message_try_quiet p m : inv (quiet P) (send_message_try p m).
Proof. unfold send_message_try. act. Qed.

Lemma send_message_quiet p m : inv (quiet P) (send_message p m).
Proof.
  unfold send_message. act. - apply send_message_try_quiet.
  - unfold send_message_except in *. repeat case_match; simplify_eq; act.
Qed.
End SendMessage.

Lemma pause_traced P i total a b :
  (∀ d, P (Printed (LWaiting d))) → (∀ d, P (Called (time_sleep d))) →
  inv (traced P) (pause i total a b).
Proof.
  intros H1 H2. unfold pause. apply inv_traced_of_quiet. act.
Qed.

Lemma pause_grows i total a b : inv grows (pause i total a b).
Proof.
  unfold pause. apply (inv_grows_of_quiet (λ _, True)). act.
Qed.

Lemma round_grows total message a b item :
  inv grows (send_bulk_messages_round total message a b item).
Proof.
  unfold send_bulk_messages_round. act.
  - apply (inv_grows_of_quiet (λ _, True)). act.
  - apply (inv_grows_of_quiet (λ _, True)). by apply send_message_quiet.
  - apply inv_grows_append_success.
  - apply inv_grows_append_failed.
  - apply pause_grows.
Qed.

Lemma round_no_summary total message a b item :
  inv (traced no_summary) (send_bulk_messages_round total message a b item).
Proof.
  unfold send_bulk_messages_round. act.
  - apply inv_traced_of_quiet. act.
  - apply inv_traced_of_quiet. apply send_message_quiet; try done.
    + apply browser_no_summary.
    + by intros [].
  - apply inv_traced_modify_self.
  - apply inv_traced_modify_self.
  - by apply pause_traced.
Qed.

Lemma dispatch_loop_grows total message a b i entries :
  inv grows (dispatch_loop total message a b i entries).
Proof. apply inv_for_each; [apply _|]. intros ?. apply round_grows. Qed.

Lemma dispatch_loop_no_summary total message a b i entries :
  inv (traced no_summary) (dispatch_loop total message a b i entries).
Proof. apply inv_for_each; [apply _|]. intros ?. apply round_no_summary. Qed.

(** ** The summary and the whole of [send_bulk_messages] *)

Lemma log_as_log_all ev st : log ev st = log_all [ev] st.
Proof. reflexivity. Qed.

Lemma log_all_log_all evs1 evs2 st :
  log_all evs2 (log_all evs1 st) = log_all (evs1 ++ evs2) st.
Proof. unfold log_all. simpl. by rewrite app_assoc. Qed.

Lemma log_all_nil st : log_all [] st = st.
Proof. destruct st. unfold log_all. simpl. by rewrite app_nil_r. Qed.

Lemma for_each_print {A} (f : A → line) (l : list A) st :
  for_each l (λ x, print (f x)) st
  = (Ret tt, log_all (List.map (λ x, Printed (f x)) l) st).
Proof.
  revert st. induction l as [|x l IH]; intros st; simpl.
  - by rewrite log_all_nil.
  - rewrite bind_run. change (print (f x) st) with (Ret (), log (Printed (f x)) st).
    cbv beta iota. by rewrite IH, log_as_log_all, log_all_log_all.
Qed.

Lemma print_run l st : print l st = (Ret tt, log_all [Printed l] st).
Proof. reflexivity. Qed.

Lemma get_self_run st : get_self st = (Ret (self st), st).
Proof. reflexivity. Qed.

Ltac run_step :=
  rewrite bind_run; first [rewrite print_run | rewrite get_self_run];
  cbv beta iota; rewrite ?log_all_log_all.

Lemma print_summary_run st :
  print_summary st = (Ret tt, log_all (summary_of (results (self st))) st).
Proof.
  unfold print_summary, summary_of. do 8 run_step. cbn [self log_all].
  destruct (failed (results (self st))) as [|n ns] eqn:Hf; cbn [truthy].
  - done.
  - run_step. by rewrite for_each_print, log_all_log_all, <- !app_assoc.
Qed.

Lemma plain_hidden evs :
  Forall plain evs → attempts evs = [] ∧ outcomes evs = [] ∧ pauses evs = [].
Proof.
  induction 1 as [|ev evs (H1 & H2 & H3) _ (IH1 & IH2 & IH3)]; [done|].
  change (ev :: evs) with ([ev] ++ evs).
  rewrite attempts_app, outcomes_app, pauses_app, IH1, IH2, IH3.
  unfold attempts, outcomes, pauses. simpl. by rewrite H1, H2, H3.
Qed.

Lemma summary_plain r : Forall plain (summary_of r).
Proof.
  unfold summary_of. apply Forall_app. split; [by repeat constructor|].
  destruct (truthy (failed r)); [|constructor].
  constructor; [done|]. apply Forall_forall. intros ev Hev.
  apply list_elem_of_In, in_map_iff in Hev. by destruct Hev as (n & <- & _).
Qed.

Lemma dispatched_plain message a b st evs :
  Forall plain evs → dispatched message a b st (log_all evs st) evs [].
Proof.
  intros (Ha & Ho & Hp)%plain_hidden.
  split; try done; simpl; rewrite ?Ho, ?Ha, ?Hp; try done;
    by rewrite app_nil_r.
Qed.

Lemma send_bulk_messages_run phone_numbers message a b st :
  send_bulk_messages phone_numbers message a b st
  = match dispatch_loop (length phone_numbers) message a b 1 phone_numbers
            (log_all (heading phone_numbers message) st) with
    | (Ret _, st1) => (Ret tt, log_all (summary_of (results (self st1))) st1)
    | (Raise e, st1) => (Raise e, st1)
    end.
Proof.
  unfold send_bulk_messages. do 2 run_step. rewrite bind_run.
  fold (dispatch_loop (length phone_numbers) message a b 1 phone_numbers).
  unfold heading. simpl.
  destruct (dispatch_loop _ _ _ _ _ _ _) as [[[]|e] st1]; [|done].
  apply print_summary_run.
Qed.

Lemma heading_plain phone_numbers message :
  Forall plain (heading phone_numbers message).
Proof. by repeat constructor. Qed.

Lemma send_bulk_messages_spec phone_numbers message a b st :
  let m := send_bulk_messages phone_numbers message a b in
  ∃ evs tried,
    dispatched message a b st (m st).2 evs tried
    ∧ tried `prefix_of` recipients phone_numbers
    ∧ match (m st).1 with
      | Ret _ =>
          tried = recipients phone_numbers
          ∧ (outcomes evs).*1 = recipients phone_numbers
          ∧ length (pauses evs)
            = length (List.filter (pausing (length phone_numbers))
                                  (enumerate phone_numbers 1))
          ∧ ∃ evs0, evs = evs0 ++ summary_of (results (self (m st).2))
      | Raise _ => upset a b st ∧ Forall no_summary evs
      end.
Proof.
  intros m. subst m. rewrite send_bulk_messages_run.
  set (hd := heading phone_numbers message). set (st0 := log_all hd st).
  pose proof (dispatched_plain message a b st hd
                (heading_plain phone_numbers message)) as Hd0.
  destruct (plain_hidden hd (heading_plain phone_numbers message))
    as (Ha0 & Ho0 & Hp0).
  destruct (dispatch_loop_spec (length phone_numbers) message a b
              phone_numbers 1 st0) as (evs & tried & Hd & Hpre & Hres).
  destruct (dispatch_loop_no_summary (length phone_numbers) message a b 1
              phone_numbers st0) as (evs' & Ht' & Hns).
  cbv zeta in Hd, Hres.
  destruct (dispatch_loop _ _ _ _ _ _ st0) as [[[]|e] st1]; cbn [fst snd] in *.
  - destruct Hres as (-> & Hall & Hlen).
    set (sm := summary_of (results (self st1))).
    destruct (plain_hidden sm (summary_plain _)) as (Ha2 & Ho2 & Hp2).
    exists (hd ++ evs ++ sm), (recipients phone_numbers).
    split.
    + replace (recipients phone_numbers)
        with ([] ++ recipients phone_numbers ++ []) by by rewrite app_nil_r.
      eapply dispatched_then; [exact Hd0 | by rewrite Ho0 |].
      eapply dispatched_then; [exact Hd | exact Hall |].
      apply dispatched_plain, summary_plain.
    + split; [done|]. split; [done|].
      rewrite !outcomes_app, !pauses_app, Ho0, Hp0, Ho2, Hp2, !app_nil_r.
      simpl. split; [done|]. split; [done|].
      exists (hd ++ evs). by rewrite <- app_assoc.
  - exists (hd ++ evs), tried. split.
    + change tried with ([] ++ tried).
      eapply dispatched_then; [exact Hd0 | by rewrite Ho0 | exact Hd].
    + split; [done|]. split.
      * eapply upset_later; [|exact Hres]. done.
      * apply Forall_app. split; [by repeat constructor|].
        destruct Hd as [_ Ht _ _ _ _ _]. rewrite Ht in Ht'.
        by apply app_inv_head in Ht' as ->.
Qed.

(** ** Splitting the outcomes into sent and not sent *)

Lemma sent_split outs : sent_to outs ++ not_sent_to outs ≡ₚ outs.*1.
Proof.
  unfold sent_to, not_sent_to. induction outs as [|[p o] outs IH]; [done|].
  simpl. destruct (is_sent o); simpl.
  - by constructor.
  - rewrite <- Permutation_middle. by constructor.
Qed.

Lemma sent_to_sublist outs : sent_to outs `sublist_of` outs.*1.
Proof.
  unfold sent_to. induction outs as [|[p o] outs IH]; [done|].
  simpl. destruct (is_sent o); simpl; by constructor.
Qed.

Lemma not_sent_to_sublist outs : not_sent_to outs `sublist_of` outs.*1.
Proof.
  unfold not_sent_to. induction outs as [|[p o] outs IH]; [done|].
  simpl. destruct (is_sent o); simpl; by constructor.
Qed.



Lemma Forall_of_prefix {A} (P : A → Prop) (l k : list A) :
  l `prefix_of` k → Forall P k → Forall P l.
Proof. intros [k' ->] [? ?]%Forall_app. done. Qed.


(** ** The claims about the dispatch loop *)


(** C1 (amended).  After a run of the dispatch loop that completes
    normally, started with empty results: the succeeded and the failed
    recipients together number the non-blank entries of the input; put
    together they are a permutation of the stripped non-blank entries, so
    each occurrence is covered exactly once and the union, as a set, is the
    set of stripped non-blank entries; and the two lists are disjoint
    whenever the stripped non-blank entries are pairwise distinct. *)
Theorem C1_results_cover_recipients phone_numbers message a b st :
  results (self st) = {| success := []; failed := [] |} →
  (send_bulk_messages phone_numbers message a b st).1 = Ret tt →
  let r := results (self (send_bulk_messages phone_numbers message a b st).2) in
  length (success r) + length (failed r)
    = length (List.filter (λ e, negb (blank e)) phone_numbers)
  ∧ success r ++ failed r ≡ₚ recipients phone_numbers
  ∧ list_to_set (success r) ∪ list_to_set (failed r)
    =@{gset str} list_to_set (recipients phone_numbers)
  ∧ (NoDup (recipients phone_numbers) →
     ∀ p, p ∈ success r → p ∉ failed r).
Proof.
  intros Hinit Hret r. subst r.
  destruct (send_bulk_messages_spec phone_numbers message a b st)
    as (evs & tried & [_ _ _ _ Hs Hf _] & _ & Hres).
  cbv zeta in Hres. rewrite Hret in Hres.
  destruct Hres as (_ & Hall & _).
  rewrite Hinit in Hs, Hf. simpl in Hs, Hf.
  assert (success (results (self (send_bulk_messages phone_numbers message a b st).2))
          ++ failed (results (self (send_bulk_messages phone_numbers message a b st).2))
          ≡ₚ recipients phone_numbers) as Hperm.
  { rewrite Hs, Hf, <- Hall. apply sent_split. }
  split; [|split; [done|split]].
  - rewrite <- recipients_length, <- Hperm. by rewrite length_app.
  - apply set_eq. intros p.
    by rewrite elem_of_union, !elem_of_list_to_set, <- elem_of_app, Hperm.
  - intros Hnd. rewrite <- Hperm in Hnd. by apply NoDup_app in Hnd as (_ & H & _).
Qed.

(** C5.  In a run that completes normally the delivery attempts are the
    stripped non-blank entries of the input, in input order, one attempt
    for each occurrence (none for a blank entry, none repeated), each with
    one reported outcome; and the entries appended to the succeeded and
    to the failed list each keep that order. *)
Theorem C5_attempts_in_input_order phone_numbers message a b st :
  (send_bulk_messages phone_numbers message a b st).1 = Ret tt →
  let st' := (send_bulk_messages phone_numbers message a b st).2 in
  ∃ evs sent unsent,
    trace st' = trace st ++ evs
    ∧ attempts evs = (λ p, (p, message)) <$> recipients phone_numbers
    ∧ (outcomes evs).*1 = recipients phone_numbers
    ∧ success (results (self st')) = success (results (self st)) ++ sent
    ∧ failed (results (self st')) = failed (results (self st)) ++ unsent
    ∧ sent `sublist_of` recipients phone_numbers
    ∧ unsent `sublist_of` recipients phone_numbers.
Proof.
  intros Hret st'. subst st'.
  destruct (send_bulk_messages_spec phone_numbers message a b st)
    as (evs & tried & [_ Ht Ha _ Hs Hf _] & _ & Hres).
  cbv zeta in Hres. rewrite Hret in Hres.
  destruct Hres as (-> & Hall & _).
  exists evs, (sent_to (outcomes evs)), (not_sent_to (outcomes evs)).
  repeat split; try done; rewrite <- Hall.
  - apply sent_to_sublist.
  - apply not_sent_to_sublist.
Qed.


(** The example of the specification: two recipients around a blank
    line, the channel returns true then false. *)
Lemma C1_results_cover_recipients_witness :
  let st := world ready no_files second_not_found in
  let r := results (self (send_bulk_messages [alice; []; bob] hi 0 0 st).2) in
  length (success r) + length (failed r)
    = length (List.filter (λ e, negb (blank e)) [alice; []; bob])
  ∧ success r ++ failed r ≡ₚ recipients [alice; []; bob]
  ∧ list_to_set (success r) ∪ list_to_set (failed r)
    =@{gset str} list_to_set (recipients [alice; []; bob])
  ∧ (NoDup (recipients [alice; []; bob]) →
     ∀ p, p ∈ success r → p ∉ failed r).
Proof.
  apply C1_results_cover_recipients; [reflexivity | vm_compute; reflexivity].
Defined.

Example spec_example_results :
  results (self (send_bulk_messages [alice; []; bob] hi 0 0
                   (world ready no_files second_not_found)).2)
  = {| success := [alice]; failed := [bob] |}.
Proof. vm_compute. reflexivity. Qed.

(** C1 as stated fails on duplicates: the same recipient twice, the
    channel returns true then false; the run completes normally and the
    recipient is in both lists. *)
Lemma C1_duplicate_in_both_lists :
  let st := world ready no_files second_not_found in
  let run := send_bulk_messages [alice; alice] hi 0 0 st in
  run.1 = Ret tt
  ∧ ¬ (∀ p, p ∈ success (results (self run.2))
            → p ∉ failed (results (self run.2))).
Proof.
  assert ((send_bulk_messages [alice; alice] hi 0 0
             (world ready no_files second_not_found)).1 = Ret tt) as H1
    by (vm_compute; reflexivity).
  assert (results (self (send_bulk_messages [alice; alice] hi 0 0
            (world ready no_files second_not_found)).2)
          = {| success := [alice]; failed := [alice] |}) as H2
    by (vm_compute; reflexivity).
  cbv zeta. split; [done|]. rewrite H2. simpl.
  intros H. apply (H alice); apply list_elem_of_In; by left.
Qed.

Lemma C5_attempts_in_input_order_witness :
  let st := world ready no_files second_not_found in
  let st' := (send_bulk_messages [alice; []; bob] hi 0 0 st).2 in
  ∃ evs sent unsent,
    trace st' = trace st ++ evs
    ∧ attempts evs = (λ p, (p, hi)) <$> recipients [alice; []; bob]
    ∧ (outcomes evs).*1 = recipients [alice; []; bob]
    ∧ success (results (self st')) = success (results (self st)) ++ sent
    ∧ failed (results (self st')) = failed (results (self st)) ++ unsent
    ∧ sent `sublist_of` recipients [alice; []; bob]
    ∧ unsent `sublist_of` recipients [alice; []; bob].
Proof.
  apply C5_attempts_in_input_order. vm_compute. reflexivity.
Defined.

(** ** Delays *)

Lemma uniform_between a b u :
  (a <= b)%Q → (0 <= u)%Q → (u <= 1)%Q →
  (a <= uniform a b u)%Q ∧ (uniform a b u <= b)%Q.
Proof.
  intros Hab H0 H1. unfold uniform.
  assert (0 <= (b - a) * u)%Q as Hlo by (apply Qmult_le_0_compat; lra).
  assert (0 <= (b - a) * (1 - u))%Q as Hhi by (apply Qmult_le_0_compat; lra).
  split; [lra|].
  assert ((b - a) * (1 - u) == (b - a) - (b - a) * u)%Q as E by ring.
  rewrite E in Hhi. lra.
Qed.





Example first_click_breaks_run :
  let run := send_bulk_messages [alice; bob] hi 2 5
               (world ready no_files first_click_breaks) in
  run.1 = Ret tt
  ∧ results (self run.2) = {| success := [bob]; failed := [alice] |}
  ∧ outcomes (trace run.2) = [(alice, Errored WebDriverException); (bob, Sent)].
Proof. vm_compute. done. Qed.

(** ** Around the loop: the browser session *)

Lemma browser_backstage ev : browser ev → backstage ev.
Proof. by destruct ev as [|[]|]. Qed.

Lemma backstage_no_delivery ev : backstage ev → no_delivery ev.
Proof. by destruct ev. Qed.


Lemma backstage_plain ev : backstage ev → plain ev.
Proof. destruct ev; simpl; unfold plain; simpl; tauto. Qed.

#[global] Hint Resolve browser_backstage self_driver_quiet self_wait_quiet
  self_wait_until_quiet self_driver_find_element_quiet : act.
#[global] Hint Extern 1 (backstage _) => (exact I || by repeat split) : act.

Lemma setup_driver_backstage : inv (quiet backstage) setup_driver.
Proof. unfold setup_driver. act. Qed.

Lemma open_whatsapp_web_backstage : inv (quiet backstage) open_whatsapp_web.
Proof. unfold open_whatsapp_web. act. Qed.

Lemma cleanup_backstage : inv (quiet backstage) cleanup.
Proof. unfold cleanup. act. Qed.

Lemma setup_driver_clean : clean setup_driver.
Proof. unfold setup_driver. act. Qed.

Lemma open_whatsapp_web_clean : clean open_whatsapp_web.
Proof. unfold open_whatsapp_web. act. Qed.

Lemma cleanup_clean : clean cleanup.
Proof. unfold cleanup. act. Qed.

(** ** The results only grow *)

Lemma enumerate_length {A} (l : list A) i : length (enumerate l i) = length l.
Proof. revert i. induction l as [|x l IH]; intros i; simpl; auto. Qed.

(** C9.  The results of a new sender are empty; the succeeded and the
    failed list at any round of the dispatch loop are prefixes of what
    they are at any later round; the summary is printed from the results
    as the loop left them and changes nothing of the sender, and neither
    does the cleanup change the results. *)
Theorem C9_results_append_only phone_numbers message a b st headless j d :
  results (WhatsAppBulkSender headless) = {| success := []; failed := [] |}
  ∧ grows st (after_rounds j phone_numbers message a b st)
  ∧ grows (after_rounds j phone_numbers message a b st)
          (after_rounds (j + d) phone_numbers message a b st)
  ∧ results (self (send_bulk_messages phone_numbers message a b st).2)
    = results (self (after_rounds (length phone_numbers) phone_numbers
                       message a b
                       (log_all (heading phone_numbers message) st)))
  ∧ self (print_summary st).2 = self st
  ∧ results (self (cleanup st).2) = results (self st).
Proof.
  split; [done|]. split; [|split; [|split; [|split]]].
  - apply (inv_for_each grows). intros ?. apply round_grows.
  - unfold after_rounds. rewrite <- take_take_drop, for_each_app, bind_run.
    destruct (for_each (take j _) _ st) as [[[]|e] st1]; cbn [fst snd].
    + apply (inv_for_each grows). intros ?. apply round_grows.
    + reflexivity.
  - rewrite send_bulk_messages_run. unfold after_rounds.
    rewrite take_ge by by rewrite enumerate_length.
    fold (dispatch_loop (length phone_numbers) message a b 1 phone_numbers).
    by destruct (dispatch_loop _ _ _ _ _ _ _) as [[[]|e] st1].
  - by rewrite print_summary_run.
  - apply cleanup_backstage.
Qed.

Example after_rounds_ex :
  let st := world ready no_files second_not_found in
  List.map (λ n, results (self (after_rounds n [alice; []; bob] hi 0 0 st)))
           [0; 1; 2; 3]
  = [ {| success := []; failed := [] |};
      {| success := [alice]; failed := [] |};
      {| success := [alice]; failed := [] |};
      {| success := [alice]; failed := [bob] |} ].
Proof. vm_compute. reflexivity. Qed.

(** ** Reading the recipient file *)

Lemma read_phone_numbers_holds path content st :
  fs st path = Holds content →
  read_phone_numbers path st = (Ret (recipients (file_lines content)), st).
Proof.
  intros H. unfold read_phone_numbers, try_except. rewrite bind_run.
  unfold open_and_read_lines. rewrite H. simpl.
  by rewrite strip_nonempty_recipients.
Qed.

Lemma read_phone_numbers_absent path st :
  fs st path = Absent →
  read_phone_numbers path st
  = (Raise (SystemExit 1), log (Printed (LFileNotFound path)) st).
Proof.
  intros H. unfold read_phone_numbers, try_except. rewrite bind_run.
  unfold open_and_read_lines. by rewrite H.
Qed.

Lemma read_phone_numbers_unreadable path e st :
  fs st path = Unreadable e →
  read_phone_numbers path st
  = (Raise (SystemExit 1), log (Printed (read_error_line path e)) st).
Proof.
  intros H. unfold read_phone_numbers, try_except. rewrite bind_run.
  unfold open_and_read_lines. rewrite H. by destruct e.
Qed.



Example read_numbers_txt :
  (read_phone_numbers (lit "numbers.txt")
     (world ready (one_file numbers_txt) obliging)).1
  = Ret [alice; bob].
Proof. vm_compute. reflexivity. Qed.

(** ** The process: configuration errors *)

Lemma path_exists_run p st :
  path_exists p st
  = (Ret (match fs st p with Absent => false | _ => true end), st).
Proof. reflexivity. Qed.

(** C6.  When the recipient file is missing, cannot be read, or holds no
    non-blank line, the process exits with status 1 after printing one
    line that says so, and that line is all it did: the sender is not
    built, the browser is not called, nothing is delivered. *)
Theorem C6_configuration_errors_exit_early args st :
  fs st (numbers args) = Absent
  ∨ (∃ e, fs st (numbers args) = Unreadable e)
  ∨ (∃ content, fs st (numbers args) = Holds content
                ∧ recipients (file_lines content) = []) →
  ∃ l, run args st = (1%Z, log (Printed l) st)
       ∧ configuration_error (numbers args) l
       ∧ (run args st).1 ≠ 0%Z
       ∧ self (run args st).2 = self st
       ∧ trace (run args st).2 = trace st ++ [Printed l]
       ∧ attempts (trace (run args st).2) = attempts (trace st).
Proof.
  intros Hfs.
  assert (∃ l, run args st = (1%Z, log (Printed l) st)
               ∧ configuration_error (numbers args) l) as (l & Hrun & Hl).
  { unfold run, main. rewrite bind_run, path_exists_run.
    destruct Hfs as [H|[[e H]|(content & H & Hnone)]]; rewrite H; cbn [negb].
    - eexists. split; [reflexivity | constructor].
    - rewrite bind_run, (read_phone_numbers_unreadable _ e) by done.
      eexists. split; [reflexivity|]. destruct e; constructor.
    - rewrite bind_run, (read_phone_numbers_holds _ content) by done.
      rewrite Hnone. eexists. split; [reflexivity | constructor]. }
  exists l. rewrite Hrun. repeat split; try done.
  simpl. by rewrite attempts_app, app_nil_r.
Qed.

Lemma C6_configuration_errors_exit_early_witness :
  let st := world ready (one_file [LF; LF]) obliging in
  ∃ l, run example_args st = (1%Z, log (Printed l) st)
       ∧ configuration_error (numbers example_args) l
       ∧ (run example_args st).1 ≠ 0%Z
       ∧ self (run example_args st).2 = self st
       ∧ trace (run example_args st).2 = trace st ++ [Printed l]
       ∧ attempts (trace (run example_args st).2) = attempts (trace st).
Proof.
  apply C6_configuration_errors_exit_early.
  right. right. eexists. split; reflexivity.
Defined.

Example missing_file_run :
  run example_args (world ready no_files obliging)
  = (1%Z, log (Printed (LNumbersFileNotFound (lit "numbers.txt")))
            (world ready no_files obliging)).
Proof. reflexivity. Qed.

Example empty_file_run :
  run example_args (world ready (one_file []) obliging)
  = (1%Z, log (Printed LNoNumbers) (world ready (one_file []) obliging)).
Proof. reflexivity. Qed.

(** ** The process: the browser session *)

Lemma main_reaches_session args content st :
  fs st (numbers args) = Holds content →
  recipients (file_lines content) ≠ [] →
  main args st
  = main_session args (recipients (file_lines content))
      (session_start args (recipients (file_lines content)) st).
Proof.
  intros Hfs Hne. unfold main.
  rewrite bind_run, path_exists_run, Hfs. cbn [negb].
  rewrite bind_run, (read_phone_numbers_holds _ content) by done.
  destruct (recipients (file_lines content)) as [|p ps]; [done|].
  cbn [truthy negb]. by rewrite bind_run.
Qed.

Lemma setup_driver_install_fails st e :
  env st (trace st) ChromeDriverManager_install = Throws e →
  setup_driver st = (Raise (Exc e), log (Called ChromeDriverManager_install) st).
Proof.
  intros H. unfold setup_driver. rewrite bind_run, get_self_run.
  cbv beta iota zeta. rewrite bind_run. unfold external at 1. by rewrite H.
Qed.

Lemma main_try_setup_raises args phone_numbers st e st1 :
  setup_driver st = (Raise e, st1) →
  main_try args phone_numbers st = (Raise e, st1).
Proof. intros H. unfold main_try. by rewrite bind_run, H. Qed.

Lemma main_session_exception args phone_numbers st e st1 :
  main_try args phone_numbers st = (Raise (Exc e), st1) →
  main_session args phone_numbers st
  = try_finally (mret tt) cleanup
      (log_all [Printed (LUnexpectedError e); Printed (LTraceback e)] st1).
Proof.
  intros H. unfold main_session, try_finally, try_except. rewrite H.
  cbn [main_except]. rewrite bind_run, print_run. cbv beta iota.
  by rewrite print_run, log_all_log_all.
Qed.


Lemma cleanup_without_driver st :
  driver (self st) = None → cleanup st = (Ret tt, st).
Proof.
  intros H. unfold cleanup. by rewrite bind_run, get_self_run, H.
Qed.

Lemma cleanup_run st :
  let r := env st (trace st ++ [Printed LClosingBrowser]) driver_quit in
  cleanup st
  = (match driver (self st), r with
     | Some _, Throws e => Raise (Exc e)
     | Some _, Interrupted => Raise KeyboardInterrupt
     | _, _ => Ret tt
     end,
     log_all (cleanup_events (driver (self st)) r) st).
Proof.
  unfold cleanup. rewrite bind_run, get_self_run. cbv beta iota zeta.
  destruct (driver (self st)); [|by rewrite log_all_nil].
  run_step. rewrite bind_run. unfold external. cbn [env trace log_all].
  destruct (env st _ _); cbn [cleanup_events];
    by rewrite ?print_run, !log_as_log_all, !log_all_log_all.
Qed.

(** C7 (the code against the claim).  When the driver setup fails, here
    on [ChromeDriverManager().install()] raising [e], the process prints
    the error and exits with status 0; nothing is delivered. *)
Theorem C7_setup_failure_exits_zero args content e st :
  fs st (numbers args) = Holds content →
  recipients (file_lines content) ≠ [] →
  env st (trace (session_start args (recipients (file_lines content)) st))
    ChromeDriverManager_install = Throws e →
  (run args st).1 = 0%Z
  ∧ trace (run args st).2
    = trace st
      ++ [Printed (LLoaded (length (recipients (file_lines content)))
                     (numbers args));
          Called ChromeDriverManager_install;
          Printed (LUnexpectedError e); Printed (LTraceback e)]
  ∧ attempts (trace (run args st).2) = attempts (trace st).
Proof.
  intros Hfs Hne Henv. unfold run.
  rewrite (main_reaches_session _ content) by done.
  set (st0 := session_start _ _ st) in *.
  rewrite (main_session_exception _ _ _ e
             (log (Called ChromeDriverManager_install) st0))
    by by apply main_try_setup_raises, setup_driver_install_fails.
  unfold try_finally. cbn [mret M_ret].
  rewrite cleanup_without_driver by done. cbn [fst snd exit_status].
  split; [done|].
  assert (trace (log_all [Printed (LUnexpectedError e); Printed (LTraceback e)]
                   (log (Called ChromeDriverManager_install) st0))
          = trace st ++ [Printed (LLoaded (length (recipients (file_lines content)))
                     (numbers args));
          Called ChromeDriverManager_install;
          Printed (LUnexpectedError e); Printed (LTraceback e)]) as ->.
  { simpl. by rewrite <- !app_assoc. }
  split; [done|]. by rewrite attempts_app, app_nil_r.
Qed.

(** The failing run: a good recipient file, and a driver that cannot be
    set up. *)
Lemma C7_setup_failure_exits_zero_witness :
  let st := world (WhatsAppBulkSender false) (one_file numbers_txt) no_chrome in
  (run example_args st).1 = 0%Z
  ∧ trace (run example_args st).2
    = trace st
      ++ [Printed (LLoaded (length (recipients (file_lines numbers_txt)))
                     (numbers example_args));
          Called ChromeDriverManager_install;
          Printed (LUnexpectedError WebDriverException);
          Printed (LTraceback WebDriverException)]
  ∧ attempts (trace (run example_args st).2) = attempts (trace st).
Proof.
  apply (C7_setup_failure_exits_zero example_args numbers_txt
           WebDriverException).
  - reflexivity.
  - vm_compute. discriminate.
  - reflexivity.
Defined.

(** The other way for the channel not to come up: the login times out,
    and there the process exits with status 1, after the cleanup. *)
Example login_timeout_run :
  let st := world (WhatsAppBulkSender false) (one_file numbers_txt) no_login in
  (run example_args st).1 = 1%Z
  ∧ attempts (trace (run example_args st).2) = []
  ∧ List.filter (λ ev, match ev with Called driver_quit => true | _ => false end)
      (trace (run example_args st).2)
    = [Called driver_quit; Called driver_quit].
Proof. vm_compute. done. Qed.

(** A run in which every delivery fails still exits with status 0. *)
Example all_failed_run :
  let st := world (WhatsAppBulkSender false) (one_file numbers_txt)
              (λ _ c, match c with
                      | driver_find_element _ => Throws NoSuchElementException
                      | _ => Done
                      end) in
  (run example_args st).1 = 0%Z
  ∧ results (self (run example_args st).2)
    = {| success := []; failed := [alice; bob] |}.
Proof. vm_compute. done. Qed.

(** ** The process: interruption *)

Lemma inv_quiet_weaken (P P' : event → Prop) {A} (m : M A) :
  (∀ ev, P ev → P' ev) → inv (quiet P) m → inv (quiet P') m.
Proof. intros HPP H st. eapply quiet_weaken, H. done. Qed.








Example interrupt_in_recovery_run :
  let st := world ready (one_file numbers_txt) interrupt_in_recovery in
  let fin := run example_args st in
  fin.1 = 0%Z
  ∧ attempts (trace fin.2) = [(alice, hi); (bob, hi)]
  ∧ results (self fin.2) = {| success := []; failed := [alice; bob] |}.
Proof. vm_compute. done. Qed.

(** ** The pauses between messages *)

Lemma pausing_before_end total l i :
  i + length l ≤ total →
  length (List.filter (pausing total) (enumerate l i)) = length (recipients l).
Proof.
  revert i. induction l as [|e l IH]; intros i Hi; [done|].
  simpl in *. unfold pausing at 1. cbn [fst snd].
  change (e :: l) with ([e] ++ l). rewrite recipients_app, recipients_one.
  destruct (Nat.ltb_spec i total); [|lia].
  destruct (blank e); simpl; rewrite IH by lia; done.
Qed.

(** The rounds that pause are those of the non-blank entries before the
    last position of the input. *)
Lemma pausing_count l :
  length (List.filter (pausing (length l)) (enumerate l 1))
  = length (recipients (take (length l - 1) l)).
Proof.
  destruct (decide (l = [])) as [->|Hne]; [done|].
  destruct (exists_last Hne) as (l1 & x & ->).
  rewrite length_app, enumerate_app, List.filter_app, length_app. simpl.
  rewrite pausing_before_end by lia.
  replace (length l1 + 1 - 1) with (length l1) by lia.
  rewrite take_app_length. unfold pausing. simpl.
  destruct (Nat.ltb_spec (S (length l1)) (length l1 + 1)); [lia|].
  rewrite andb_false_r. simpl. lia.
Qed.

(** What the loop does about pauses, in a run that completes normally:
    one pause after each non-blank entry that is not in the last position
    of the input, each of a length drawn by [random.uniform]. *)
Lemma pauses_of_completed_run phone_numbers message a b st :
  (send_bulk_messages phone_numbers message a b st).1 = Ret tt →
  ∃ evs,
    trace (send_bulk_messages phone_numbers message a b st).2 = trace st ++ evs
    ∧ length (pauses evs)
      = length (recipients (take (length phone_numbers - 1) phone_numbers))
    ∧ Forall (λ d, ∃ k, d = uniform a b (rng st k)) (pauses evs).
Proof.
  intros Hret.
  destruct (send_bulk_messages_spec phone_numbers message a b st)
    as (evs & tried & [_ Ht _ _ _ _ Hp] & _ & Hres).
  cbv zeta in Hres. rewrite Hret in Hres.
  destruct Hres as (_ & _ & Hlen & _).
  exists evs. by rewrite Hlen, pausing_count.
Qed.

(** When no entry is blank, as for the list [main] reads from the file,
    there are n - 1 pauses for n recipients, each within the delay
    range. *)
Lemma pauses_without_blank_entries phone_numbers message a b st :
  Forall (λ e, blank e = false) phone_numbers →
  (a <= b)%Q → (∀ k, (0 <= rng st k)%Q ∧ (rng st k <= 1)%Q) →
  (send_bulk_messages phone_numbers message a b st).1 = Ret tt →
  ∃ evs,
    trace (send_bulk_messages phone_numbers message a b st).2 = trace st ++ evs
    ∧ length (pauses evs) = length (recipients phone_numbers) - 1
    ∧ Forall (λ d, (a <= d)%Q ∧ (d <= b)%Q) (pauses evs).
Proof.
  intros Hnb Hab Hrng Hret.
  destruct (pauses_of_completed_run _ _ _ _ _ Hret) as (evs & Ht & Hlen & Hp).
  exists evs. split; [done|]. split.
  - rewrite Hlen, !recipients_length.
    assert (∀ l : list str, Forall (λ e, blank e = false) l →
              List.filter (λ e, negb (blank e)) l = l) as Hall.
    { induction 1 as [|e l He _ IH]; [done|]. simpl. by rewrite He, IH. }
    rewrite !Hall; [by rewrite length_take; lia | done |].
    eapply Forall_of_prefix; [apply prefix_take | done].
  - eapply Forall_impl; [exact Hp|]. intros d [k ->].
    destruct (Hrng k). by apply uniform_between.
Qed.

(** C2 (the code against the claim).  One recipient followed by a blank
    entry: there is one non-blank recipient, and yet the loop pauses once,
    after the delivery to the last (and only) recipient, before it prints
    the summary. *)
Theorem C2_pause_after_last_recipient :
  let st := world ready no_files obliging in
  let run := send_bulk_messages [alice; []] hi 2 5 st in
  run.1 = Ret tt
  ∧ recipients [alice; []] = [alice]
  ∧ pauses (trace run.2) = [(7 # 2)%Q]
  ∧ last_events 8 (trace run.2)
    = [Printed (LMessageSent alice);
       Printed (LWaiting (7 # 2)); Called (time_sleep (7 # 2))]
      ++ summary_of {| success := [alice]; failed := [] |}.
Proof. vm_compute. done. Qed.

(** ** More of the program: the browser layer, the summary, the session *)

Lemma selenium_app t1 t2 : selenium (t1 ++ t2) = selenium t1 ++ selenium t2.
Proof. apply omap_app. Qed.

Lemma sleeps_app t1 t2 : sleeps (t1 ++ t2) = sleeps t1 ++ sleeps t2.
Proof. apply omap_app. Qed.

Lemma ran_nothing st : ran [] st st.
Proof. split; [done|]. split; [done|]. exists []. by rewrite app_nil_r. Qed.

Lemma ran_then cs1 cs2 st st1 st2 :
  ran cs1 st st1 → ran cs2 st1 st2 → ran (cs1 ++ cs2) st st2.
Proof.
  intros (Hs1 & Hw1 & evs1 & Ht1 & Hc1) (Hs2 & Hw2 & evs2 & Ht2 & Hc2).
  split; [congruence|]. split; [by etrans|].
  exists (evs1 ++ evs2). rewrite selenium_app, Hc1, Hc2.
  by rewrite Ht2, Ht1, app_assoc.
Qed.

Lemma ran_log ev st : ran (selenium [ev]) st (log ev st).
Proof. split; [done|]. split; [done|]. by exists [ev]. Qed.

(** *** How the pieces return *)

Lemma run_eq {A} (m : M A) (st : State) : m st = ((m st).1, (m st).2).
Proof. by destruct (m st). Qed.

Lemma bind_ret_inv {A B} (m : M A) (k : A → M B) st b st' :
  (m ≫= k) st = (Ret b, st') →
  ∃ a st1, m st = (Ret a, st1) ∧ k a st1 = (Ret b, st').
Proof.
  rewrite bind_run. destruct (m st) as [[a|e] st1]; [|done].
  intros H. by exists a, st1.
Qed.

Lemma try_except_ret_inv {A} (body : M A) clauses st a st' :
  try_except body clauses st = (Ret a, st') →
  body st = (Ret a, st')
  ∨ ∃ e st1 h, body st = (Raise e, st1) ∧ clauses e = Some h
               ∧ h st1 = (Ret a, st').
Proof.
  unfold try_except. destruct (body st) as [[b|e] st1].
  - intros [= -> ->]. by left.
  - destruct (clauses e) as [h|] eqn:Hc; [|done].
    intros H. right. by exists e, st1, h.
Qed.

Lemma external_ret_inv c st a st' :
  external c st = (Ret a, st') →
  st' = log (Called c) st ∧ env st (trace st) c = Done.
Proof.
  unfold external. destruct (env st (trace st) c); [|done..].
  by intros [= _ <-].
Qed.

Lemma external_raise_inv c st e st' :
  external c st = (Raise e, st') →
  st' = log (Called c) st
  ∧ match e with
    | Exc e' => env st (trace st) c = Throws e'
    | KeyboardInterrupt => env st (trace st) c = Interrupted
    | SystemExit _ => False
    end.
Proof.
  unfold external. destruct (env st (trace st) c); [done|..];
    by intros [= <- <-].
Qed.

Lemma sleep_ret_inv d st a st' :
  sleep d st = (Ret a, st') →
  st' = log (Called (time_sleep d)) st ∧ (0 <= d)%Q.
Proof.
  unfold sleep. destruct (Qle_bool 0 d) eqn:Hd; simpl; [|done].
  apply Qle_bool_iff in Hd.
  destruct (env st (trace st) _); [|by intros [= _ <-]|done].
  by intros [= _ <-].
Qed.

Lemma print_ret_inv l st a st' :
  print l st = (Ret a, st') → st' = log (Printed l) st.
Proof. by intros [= _ <-]. Qed.

(** *** [human_type] *)

Lemma typing_loop_ret el text lo hi st st' :
  for_each text (λ char,
    external (element_send_keys el (KChar char));;
    delay ← random_uniform lo hi;
    sleep delay) st = (Ret tt, st') →
  self st' = self st ∧ same_world st st'
  ∧ draws st' = draws st + length text
  ∧ ∃ evs, trace st' = trace st ++ evs
      ∧ selenium evs = typed el text
      ∧ length (sleeps evs) = length text
      ∧ Forall (λ d, (0 <= d)%Q
                     ∧ ∃ k, draws st ≤ k < draws st + length text
                            ∧ d = uniform lo hi (rng st k)) (sleeps evs).
Proof.
  revert st. induction text as [|c text IH]; intros st H.
  { injection H as <-. split; [done|]. split; [done|]. split; [simpl; lia|].
    exists []. by rewrite app_nil_r. }
  cbn [for_each] in H.
  apply bind_ret_inv in H as ([] & st3 & Hbody & Hrest).
  apply bind_ret_inv in Hbody as ([] & st1 & Hkey & Hbody).
  apply external_ret_inv in Hkey as [-> _].
  apply bind_ret_inv in Hbody as (d & st2 & Hd & Hsleep).
  injection Hd as <- <-.
  apply sleep_ret_inv in Hsleep as [-> Hpos].
  destruct (IH _ Hrest) as (Hself & Hw & Hdraws & evs & Ht & Hsel & Hlen & Hall).
  cbn [self fs env rng draws trace log set_draws] in *.
  split; [done|]. split; [done|]. split; [simpl; lia|].
  set (d := uniform lo hi (rng st (draws st))) in *.
  exists ([Called (element_send_keys el (KChar c)); Called (time_sleep d)]
          ++ evs).
  split; [by rewrite Ht, <- !app_assoc|].
  rewrite selenium_app, sleeps_app, Hsel, length_app, Hlen.
  split; [done|]. split; [done|].
  apply Forall_app. split.
  - repeat constructor; [done|]. exists (draws st). simpl. split; [lia|done].
  - eapply Forall_impl; [exact Hall|]. intros q [Hq (k & Hk & ->)].
    split; [done|]. exists k. destruct Hw as (_ & _ & Hrng). simpl in *.
    split; [lia|done].
Qed.

Lemma human_type_ret element text min_delay max_delay st :
  (human_type element text min_delay max_delay st).1 = Ret tt →
  let st' := (human_type element text min_delay max_delay st).2 in
  self st' = self st
  ∧ draws st' = draws st + length text
  ∧ ∃ evs, trace st' = trace st ++ evs
      ∧ selenium evs = element_clear element :: typed element text
      ∧ length (sleeps evs) = length text
      ∧ Forall (λ d, (0 <= d)%Q
                     ∧ ∃ k, draws st ≤ k < draws st + length text
                            ∧ d = uniform (min_delay / 1000)
                                          (max_delay / 1000) (rng st k))
               (sleeps evs).
Proof.
  intros Hret st'. subst st'.
  pose proof (run_eq (human_type element text min_delay max_delay) st) as H.
  rewrite Hret in H. unfold human_type at 1 in H.
  apply bind_ret_inv in H as ([] & st1 & Hclear & Hloop).
  apply external_ret_inv in Hclear as [-> _].
  destruct (typing_loop_ret _ _ _ _ _ _ Hloop)
    as (Hself & Hw & Hdraws & evs & Ht & Hsel & Hlen & Hall).
  cbn [self fs env rng draws trace log] in *.
  split; [done|]. split; [done|].
  exists (Called (element_clear element) :: evs).
  split; [by rewrite Ht, <- app_assoc|].
  change (Called (element_clear element) :: evs)
    with ([Called (element_clear element)] ++ evs).
  by rewrite selenium_app, sleeps_app, Hsel.
Qed.

(** [human_type], when it returns, has cleared the element once and then
    sent it the characters of the text, one call each and in order, with
    one sleep after each character; it drew one random number for each
    character and left the sender as it was. *)
Theorem human_type_types_the_text element text min_delay max_delay st :
  (human_type element text min_delay max_delay st).1 = Ret tt →
  let st' := (human_type element text min_delay max_delay st).2 in
  self st' = self st
  ∧ draws st' = draws st + length text
  ∧ ∃ evs, trace st' = trace st ++ evs
      ∧ selenium evs = element_clear element :: typed element text
      ∧ length (sleeps evs) = length text.
Proof.
  intros Hret st'. subst st'.
  destruct (human_type_ret _ _ _ _ _ Hret)
    as (Hself & Hdraws & evs & Ht & Hsel & Hlen & _).
  split; [done|]. split; [done|]. by exists evs.
Qed.

Lemma human_type_types_the_text_witness :
  let st := world ready no_files obliging in
  let st' := (human_type (Element SearchBox) alice 50 150 st).2 in
  self st' = self st
  ∧ draws st' = draws st + length alice
  ∧ ∃ evs, trace st' = trace st ++ evs
      ∧ selenium evs
        = element_clear (Element SearchBox) :: typed (Element SearchBox) alice
      ∧ length (sleeps evs) = length alice.
Proof. apply human_type_types_the_text. vm_compute. reflexivity. Defined.



(** *** [search_contact] *)

Lemma ran_eq cs cs' st st' : ran cs st st' → cs = cs' → ran cs' st st'.
Proof. by intros H <-. Qed.

Lemma external_ret_ran c st a st' :
  external c st = (Ret a, st') → ran (selenium [Called c]) st st'.
Proof. intros [-> _]%external_ret_inv. apply ran_log. Qed.

Lemma sleep_ret_ran d st a st' : sleep d st = (Ret a, st') → ran [] st st'.
Proof. intros [-> _]%sleep_ret_inv. apply (ran_log (Called (time_sleep d))). Qed.

Lemma print_ret_ran l st a st' : print l st = (Ret a, st') → ran [] st st'.
Proof. intros ->%print_ret_inv. apply (ran_log (Printed l)). Qed.

Lemma self_wait_ret_inv st w st' :
  self_wait st = (Ret w, st') → st' = st ∧ wait (self st) = Some w.
Proof.
  unfold self_wait. rewrite bind_run, get_self_run. cbv beta iota.
  destruct (wait (self st)); [|done]. by intros [= <- <-].
Qed.

Lemma self_driver_ret_inv st d st' :
  self_driver st = (Ret d, st') → st' = st ∧ driver (self st) = Some d.
Proof.
  unfold self_driver. rewrite bind_run, get_self_run. cbv beta iota.
  destruct (driver (self st)) as [d'|]; [|done].
  intros H. unfold mret, M_ret in H. destruct d, d'. by simplify_eq.
Qed.

Lemma self_wait_until_ret_inv l st el st' :
  self_wait_until l st = (Ret el, st') →
  el = Element l ∧ ran [wait_until l] st st' ∧ is_Some (wait (self st)).
Proof.
  unfold self_wait_until. intros H.
  apply bind_ret_inv in H as (w & s1 & Hw & H).
  apply self_wait_ret_inv in Hw as [-> Hw].
  apply bind_ret_inv in H as ([] & s2 & Hc & H).
  injection H as <- <-.
  split; [done|]. split; [exact (external_ret_ran _ _ _ _ Hc) | by eexists].
Qed.

Lemma self_driver_find_element_ret_inv l st el st' :
  self_driver_find_element l st = (Ret el, st') →
  el = Element l ∧ ran [driver_find_element l] st st'
  ∧ is_Some (driver (self st)).
Proof.
  unfold self_driver_find_element. intros H.
  apply bind_ret_inv in H as (w & s1 & Hw & H).
  apply self_driver_ret_inv in Hw as [-> Hw].
  apply bind_ret_inv in H as ([] & s2 & Hc & H).
  injection H as <- <-.
  split; [done|]. split; [exact (external_ret_ran _ _ _ _ Hc) | by eexists].
Qed.

Lemma human_type_ret_ran el text lo hi st a st' :
  human_type el text lo hi st = (Ret a, st') →
  ran (element_clear el :: typed el text) st st'.
Proof.
  intros H. destruct a.
  assert ((human_type el text lo hi st).1 = Ret tt) as Hret by by rewrite H.
  destruct (human_type_ret _ _ _ _ _ Hret)
    as (Hself & _ & evs & Ht & Hsel & _).
  rewrite H in Hself, Ht. cbn [snd] in *.
  split; [done|]. split; [|by exists evs].
  pose proof (human_type_quiet (λ _, True) (λ _ _, I) el text lo hi st) as Hq.
  rewrite H in Hq. apply Hq.
Qed.

Lemma search_contact_true_ran phone st st' :
  search_contact phone st = (Ret true, st') →
  ran (search_calls phone) st st'
  ∧ is_Some (wait (self st)) ∧ is_Some (driver (self st)).
Proof.
  unfold search_contact. intros H.
  apply try_except_ret_inv in H as [H|(e & s & h & _ & Hc & Hh)].
  2:{ destruct e as [[]| |]; simplify_eq; by injection Hh. }
  apply bind_ret_inv in H as (sb & s1 & H1 & H).
  apply self_wait_until_ret_inv in H1 as (-> & R1 & Hwait).
  apply bind_ret_inv in H as ([] & s2 & H2 & H).
  apply external_ret_ran in H2 as R2.
  apply bind_ret_inv in H as ([] & s3 & H3 & H).
  apply sleep_ret_ran in H3 as R3.
  apply bind_ret_inv in H as ([] & s4 & H4 & H).
  apply external_ret_ran in H4 as R4.
  apply bind_ret_inv in H as ([] & s5 & H5 & H).
  apply sleep_ret_ran in H5 as R5.
  apply bind_ret_inv in H as ([] & s6 & H6 & H).
  apply human_type_ret_ran in H6 as R6.
  apply bind_ret_inv in H as ([] & s7 & H7 & H).
  apply sleep_ret_ran in H7 as R7.
  apply bind_ret_inv in H as ([] & s8 & H8 & H).
  apply external_ret_ran in H8 as R8.
  apply bind_ret_inv in H as ([] & s9 & H9 & H).
  apply sleep_ret_ran in H9 as R9.
  apply try_except_ret_inv in H as [H|(e & s & h & _ & Hc & Hh)].
  2:{ destruct e as [[]| |]; simplify_eq.
      apply bind_ret_inv in Hh as (? & ? & _ & Hh). by injection Hh. }
  apply bind_ret_inv in H as (el & s10 & H10 & H).
  apply self_driver_find_element_ret_inv in H10 as (-> & R10 & Hdrv).
  injection H as <-.
  assert (self s9 = self st) as Hself.
  { destruct R1 as [E1 _], R2 as [E2 _], R3 as [E3 _], R4 as [E4 _],
      R5 as [E5 _], R6 as [E6 _], R7 as [E7 _], R8 as [E8 _], R9 as [E9 _].
    congruence. }
  rewrite Hself in Hdrv. split; [|done].
  eapply ran_eq.
  { eapply ran_then; [exact R1|]. eapply ran_then; [exact R2|].
    eapply ran_then; [exact R3|]. eapply ran_then; [exact R4|].
    eapply ran_then; [exact R5|]. eapply ran_then; [exact R6|].
    eapply ran_then; [exact R7|]. eapply ran_then; [exact R8|].
    eapply ran_then; [exact R9|]. exact R10. }
  reflexivity.
Qed.

#[global] Instance same_self_preorder : PreOrder same_self.
Proof.
  split; [by intros st|]. intros a b c H1 H2. unfold same_self in *.
  congruence.
Qed.

Lemma inv_same_self_emit ev : inv same_self (emit ev).
Proof. by intros st. Qed.

Lemma inv_same_self_print l : inv same_self (print l).
Proof. by intros st. Qed.

Lemma inv_same_self_external c : inv same_self (external c).
Proof. intros st. unfold external. by destruct (env st (trace st) c). Qed.

Lemma inv_same_self_sleep d : inv same_self (sleep d).
Proof.
  intros st. unfold sleep. destruct (negb _); [done|].
  by destruct (env st (trace st) _).
Qed.

Lemma inv_same_self_random_uniform a b : inv same_self (random_uniform a b).
Proof. by intros st. Qed.

#[global] Hint Resolve inv_same_self_emit inv_same_self_print
  inv_same_self_external inv_same_self_sleep inv_same_self_random_uniform
  : act.

Lemma self_driver_same_self : inv same_self self_driver.
Proof. unfold self_driver. act. Qed.

Lemma self_wait_same_self : inv same_self self_wait.
Proof. unfold self_wait. act. Qed.

#[global] Hint Resolve self_driver_same_self self_wait_same_self : act.

Lemma self_wait_until_same_self l : inv same_self (self_wait_until l).
Proof. unfold self_wait_until. act. Qed.

Lemma self_driver_find_element_same_self l :
  inv same_self (self_driver_find_element l).
Proof. unfold self_driver_find_element. act. Qed.

Lemma human_type_same_self el text a b : inv same_self (human_type el text a b).
Proof. unfold human_type. act. Qed.

#[global] Hint Resolve self_wait_until_same_self
  self_driver_find_element_same_self human_type_same_self : act.

Lemma search_contact_same_self phone : inv same_self (search_contact phone).
Proof. unfold search_contact. act. Qed.

#[global] Hint Resolve search_contact_same_self : act.

Lemma send_message_same_self phone message :
  inv same_self (send_message phone message).
Proof.
  unfold send_message, send_message_try. act.
  unfold send_message_except in *. repeat case_match; simplify_eq; act.
Qed.

(** [search_contact], when it returns True, has made these Selenium
    calls and no other: it waited for the search box, clicked it, cleared
    it twice, sent it the characters of the phone number in order and
    then RETURN, and last looked for a message box, which it found.  The
    sender had a driver and a wait, and is left as it was. *)
Theorem search_contact_found phone_number st :
  (search_contact phone_number st).1 = Ret true →
  let st' := (search_contact phone_number st).2 in
  self st' = self st
  ∧ is_Some (wait (self st)) ∧ is_Some (driver (self st))
  ∧ ∃ evs, trace st' = trace st ++ evs
           ∧ selenium evs = search_calls phone_number
           ∧ last evs = Some (Called (driver_find_element AnyMessageBox)).
Proof.
  intros Hret st'. subst st'.
  destruct (search_contact phone_number st) as [r st'] eqn:H.
  cbn [fst snd] in *. subst r.
  pose proof H as H'. unfold search_contact in H'.
  apply search_contact_true_ran in H as ((Hself & _ & evs & Ht & Hsel) & Hw & Hd).
  split; [done|]. split; [done|]. split; [done|].
  exists evs. split; [done|]. split; [done|].
  (* the last event *)
  apply try_except_ret_inv in H' as [H'|(e & s & h & _ & Hc & Hh)].
  2:{ destruct e as [[]| |]; simplify_eq; by injection Hh. }
  repeat (apply bind_ret_inv in H' as (? & ? & _ & H')).
  apply try_except_ret_inv in H' as [H'|(e & s & h & _ & Hc & Hh)].
  2:{ destruct e as [[]| |]; simplify_eq.
      apply bind_ret_inv in Hh as (? & ? & _ & Hh). by injection Hh. }
  apply bind_ret_inv in H' as (el & s10 & H10 & H').
  injection H' as <-.
  unfold self_driver_find_element in H10.
  apply bind_ret_inv in H10 as (? & ? & [-> _]%self_driver_ret_inv & H10).
  apply bind_ret_inv in H10 as (? & ? & [-> _]%external_ret_inv & H10).
  injection H10 as _ E. rewrite <- E in Ht. cbn [trace log] in Ht.
  destruct (exists_last (l:=evs)) as (evs' & ev & ->).
  { by intros ->. }
  rewrite app_assoc in Ht. apply app_inj_tail in Ht as [_ <-].
  by rewrite last_snoc.
Qed.

Lemma search_contact_found_witness :
  let st := world ready no_files obliging in
  let st' := (search_contact alice st).2 in
  self st' = self st
  ∧ is_Some (wait (self st)) ∧ is_Some (driver (self st))
  ∧ ∃ evs, trace st' = trace st ++ evs
           ∧ selenium evs = search_calls alice
           ∧ last evs = Some (Called (driver_find_element AnyMessageBox)).
Proof. apply search_contact_found. vm_compute. reflexivity. Defined.

(** [search_contact] lets no exception out and never exits: it returns
    True or False whatever the browser raises, and only an interrupt sent
    from outside can come out of it.  It attempts no delivery and leaves
    the sender and the world as they were. *)
Theorem search_contact_contains_exceptions phone_number st :
  let r := (search_contact phone_number st).1 in
  let st' := (search_contact phone_number st).2 in
  match r with
  | Ret _ => True
  | Raise e => e = KeyboardInterrupt ∧ ¬ calm st
  end
  ∧ self st' = self st ∧ same_world st st'
  ∧ ∃ evs, trace st' = trace st ++ evs ∧ Forall browser evs.
Proof.
  cbv zeta.
  destruct (search_contact_quiet browser (λ _ H, H) phone_number st)
    as (_ & Hw & Hevs).
  pose proof (search_contact_same_self phone_number st) as Hself.
  destruct (search_contact_clean phone_number st) as [_ Hfine].
  split; [|done].
  assert (∀ e, (search_contact phone_number st).1 ≠ Raise (Exc e)) as Hexc.
  { intros e. unfold search_contact. unfold try_except at 1.
    match goal with
    | |- context [match ?x with _ => _ end] => destruct x as [[b|[e'| |c]] s]
    end; try done; by destruct e'. }
  destruct (search_contact phone_number st).1 as [b|[e| |c]]; try done.
  by destruct (Hexc e).
Qed.

(** [search_contact] with its recovery named. *)
Lemma search_contact_recovers phone_number :
  search_contact phone_number
  = try_except
      (search_box ← self_wait_until SearchBox;
       external (element_click search_box);;
       sleep 0.5;;
       external (element_clear search_box);;
       sleep 0.3;;
       human_type search_box phone_number 50 150;;
       sleep 1.5;;
       external (element_send_keys search_box KReturn);;
       sleep 2;;
       try_except
         (self_driver_find_element AnyMessageBox;; mret true)
         (λ e, match e with
               | Exc NoSuchElementException =>
                   Some (search_contact_recovery search_box)
               | _ => None
               end))
      (λ e, match e with
            | Exc TimeoutException =>
                Some (print (LSearchTimeout phone_number);; mret false)
            | Exc e' =>
                Some (print (LSearchError phone_number e');; mret false)
            | _ => None
            end).
Proof. reflexivity. Qed.

Lemma external_run c st :
  external c st
  = (match env st (trace st) c with
     | Done => Ret tt
     | Throws e => Raise (Exc e)
     | Interrupted => Raise KeyboardInterrupt
     end, log_all [Called c] st).
Proof. unfold external. by destruct (env st (trace st) c). Qed.

Lemma sleep_run d st :
  (0 <= d)%Q →
  sleep d st
  = (match env st (trace st) (time_sleep d) with
     | Interrupted => Raise KeyboardInterrupt
     | _ => Ret tt
     end, log_all [Called (time_sleep d)] st).
Proof.
  intros Hd%Qle_bool_iff. unfold sleep. rewrite Hd. cbn [negb].
  by destruct (env st (trace st) _).
Qed.

Lemma search_contact_recovery_run search_box st :
  ∃ evs,
    search_contact_recovery search_box st = (Ret false, log_all evs st)
    ∧ selenium evs `prefix_of`
        [element_clear search_box; element_send_keys search_box KEscape].
Proof.
  unfold search_contact_recovery. rewrite bind_run.
  unfold try_except. rewrite bind_run, external_run.
  destruct (env st (trace st) (element_clear search_box)); cbv beta iota.
  2,3: (exists [Called (element_clear search_box)]; split; [done|];
        by exists [element_send_keys search_box KEscape]).
  rewrite bind_run, sleep_run by done.
  match goal with
  | |- context [env ?s ?h (time_sleep ?d)] => destruct (env s h (time_sleep d))
  end; cbv beta iota; rewrite ?external_run, ?log_all_log_all.
  3: (eexists; split; [reflexivity|];
      by exists [element_send_keys search_box KEscape]).
  all: match goal with
       | |- context [env ?s ?h (element_send_keys ?b ?k)] =>
           destruct (env s h (element_send_keys b k))
       end; cbv beta iota; rewrite ?log_all_log_all;
       (eexists; split; [reflexivity | done]).
Qed.

(** The recovery of [search_contact] always returns False: whatever the
    browser answers while it clears the search box, an interrupt
    included, is swallowed by the bare [except].  It calls the browser at
    most twice and leaves the sender and the world as they were. *)
Theorem search_contact_recovery_swallows search_box st :
  let st' := (search_contact_recovery search_box st).2 in
  (search_contact_recovery search_box st).1 = Ret false
  ∧ self st' = self st ∧ same_world st st'
  ∧ ∃ evs, trace st' = trace st ++ evs
           ∧ selenium evs `prefix_of`
               [element_clear search_box;
                element_send_keys search_box KEscape].
Proof.
  cbv zeta.
  destruct (search_contact_recovery_run search_box st) as (evs & -> & Hp).
  split; [done|]. split; [done|]. split; [done|]. by exists evs.
Qed.

Lemma self_wait_until_timeout_inv l st st' :
  self_wait_until l st = (Raise (Exc TimeoutException), st') →
  ran [wait_until l] st st'.
Proof.
  unfold self_wait_until, self_wait. rewrite !bind_run, get_self_run.
  cbv beta iota. destruct (wait (self st)); [|done].
  cbn [mret M_ret]. cbv beta iota. rewrite bind_run.
  destruct (external (wait_until l) st) as [[[]|e] s] eqn:E; [done|].
  intros [= -> ->]. apply external_raise_inv in E as [-> _].
  apply (ran_log (Called (wait_until l))).
Qed.

Lemma send_message_try_true_ran phone message st st' :
  send_message_try phone message st = (Ret true, st') →
  ∃ box lookup,
    (box, lookup) ∈ message_box_lookups
    ∧ ran (search_calls phone ++ lookup ++ message_calls box message) st st'.
Proof.
  unfold send_message_try. intros H.
  apply bind_ret_inv in H as (found & s1 & Hs & H).
  destruct found; cbn [negb] in H.
  2:{ apply bind_ret_inv in H as (? & ? & _ & H). by injection H. }
  apply search_contact_true_ran in Hs as [Rs _].
  apply bind_ret_inv in H as (box & s2 & Hbox & H).
  assert (∃ lookup, (box, lookup) ∈ message_box_lookups ∧ ran lookup s1 s2)
    as (lookup & Hin & Rl).
  { unfold message_box_lookups.
    apply try_except_ret_inv in Hbox as [Hb|(e & sa & h & Hb & Hc & Hh)].
    { apply self_wait_until_ret_inv in Hb as (-> & R & _).
      eexists. split; [|exact R]. set_solver. }
    destruct e as [[]| |]; simplify_eq.
    apply self_wait_until_timeout_inv in Hb as Ra.
    apply try_except_ret_inv in Hh as [Hb'|(e & sb & h & Hb' & Hc & Hh)].
    { apply self_wait_until_ret_inv in Hb' as (-> & R & _).
      eexists. split; [|exact (ran_then _ _ _ _ _ Ra R)]. set_solver. }
    destruct e as [[]| |]; simplify_eq.
    apply self_wait_until_timeout_inv in Hb' as Rb.
    apply self_driver_find_element_ret_inv in Hh as (-> & R & _).
    eexists. split; [|exact (ran_then _ _ _ _ _ Ra (ran_then _ _ _ _ _ Rb R))].
    set_solver. }
  apply bind_ret_inv in H as ([] & s3 & H3 & H).
  apply external_ret_ran in H3 as R3.
  apply bind_ret_inv in H as ([] & s4 & H4 & H).
  apply sleep_ret_ran in H4 as R4.
  apply bind_ret_inv in H as ([] & s5 & H5 & H).
  apply human_type_ret_ran in H5 as R5.
  apply bind_ret_inv in H as ([] & s6 & H6 & H).
  apply sleep_ret_ran in H6 as R6.
  apply bind_ret_inv in H as ([] & s7 & H7 & H).
  apply external_ret_ran in H7 as R7.
  apply bind_ret_inv in H as ([] & s8 & H8 & H).
  apply sleep_ret_ran in H8 as R8.
  apply bind_ret_inv in H as ([] & s9 & H9 & H).
  apply print_ret_ran in H9 as R9.
  injection H as <-.
  exists box, lookup. split; [done|].
  eapply ran_eq.
  { eapply ran_then; [exact Rs|]. eapply ran_then; [exact Rl|].
    eapply ran_then; [exact R3|]. eapply ran_then; [exact R4|].
    eapply ran_then; [exact R5|]. eapply ran_then; [exact R6|].
    eapply ran_then; [exact R7|]. eapply ran_then; [exact R8|]. exact R9. }
  unfold message_calls. by simpl.
Qed.

(** [send_message], when it returns True, has searched for the contact
    as [search_contact] does, found the message box by one of its three
    lookups (each tried only after the one before timed out), clicked the
    box, cleared it, sent it the characters of the message in order and
    then RETURN, and made no other Selenium call; its only delivery
    attempt and its only report are for this recipient, and the sender is
    left as it was. *)
Theorem send_message_sent phone_number message st :
  (send_message phone_number message st).1 = Ret true →
  let st' := (send_message phone_number message st).2 in
  self st' = self st
  ∧ ∃ evs box lookup,
      trace st' = trace st ++ evs
      ∧ (box, lookup) ∈ message_box_lookups
      ∧ selenium evs
        = search_calls phone_number ++ lookup ++ message_calls box message
      ∧ attempts evs = [(phone_number, message)]
      ∧ outcomes evs = [(phone_number, Sent)].
Proof.
  intros Hret st'. subst st'.
  pose proof (send_message_same_self phone_number message st) as Hself.
  destruct (send_message_spec phone_number message st)
    as (_ & _ & evs & Ht & Ha & _ & Hres).
  cbv zeta in Hres. rewrite Hret in Hres. destruct Hres as (o & Ho & Hsent).
  destruct o; try done.
  destruct (send_message phone_number message st) as [r st'] eqn:H.
  cbn [fst snd] in *. subst r. split; [done|].
  unfold send_message in H.
  apply bind_ret_inv in H as ([] & s0 & H0 & H).
  injection H0 as <-.
  apply try_except_ret_inv in H as [H|(e & s & h & _ & Hc & Hh)].
  2:{ unfold send_message_except in Hc.
      destruct e as [[]| |]; simplify_eq;
        apply bind_ret_inv in Hh as (? & ? & _ & Hh); by injection Hh. }
  apply send_message_try_true_ran in H
    as (box & lookup & Hin & (_ & _ & evs' & Ht' & Hsel)).
  exists evs, box, lookup. repeat split; try done.
  cbn [trace log] in Ht'. rewrite Ht, <- app_assoc in Ht'.
  apply app_inv_head in Ht' as ->.
  by rewrite selenium_app.
Qed.

Lemma send_message_sent_witness :
  let st := world ready no_files obliging in
  let st' := (send_message alice hi st).2 in
  self st' = self st
  ∧ ∃ evs box lookup,
      trace st' = trace st ++ evs
      ∧ (box, lookup) ∈ message_box_lookups
      ∧ selenium evs = search_calls alice ++ lookup ++ message_calls box hi
      ∧ attempts evs = [(alice, hi)]
      ∧ outcomes evs = [(alice, Sent)].
Proof. apply send_message_sent. vm_compute. reflexivity. Defined.

(** *** A sender whose browser was never set up *)

Lemma send_message_without_wait phone message st :
  wait (self st) = None →
  send_message phone message st
  = (Ret false,
     log_all [Deliver phone message;
              Printed (LSearchError phone AttributeError);
              Printed (LContactNotFound phone)] st).
Proof.
  intros Hw. unfold send_message. rewrite bind_run.
  change (emit (Deliver phone message) st)
    with (Ret (), log_all [Deliver phone message] st).
  cbv beta iota. unfold try_except at 1, send_message_try.
  rewrite bind_run. unfold search_contact, try_except at 1.
  rewrite bind_run. unfold self_wait_until. rewrite bind_run.
  unfold self_wait. rewrite bind_run, get_self_run. cbv beta iota.
  cbn [self log_all]. rewrite Hw. cbn [raise]. cbv beta iota.
  rewrite print_ret_run. cbv beta iota. cbn [negb].
  rewrite print_ret_run. f_equal. unfold log, log_all. simpl.
  by rewrite <- !app_assoc.
Qed.

Lemma no_selenium_hidden evs : Forall no_selenium evs → selenium evs = [].
Proof.
  induction 1 as [|ev evs Hev _ IH]; [done|].
  change (ev :: evs) with ([ev] ++ evs). rewrite selenium_app, IH.
  unfold selenium. simpl. by rewrite Hev.
Qed.

Lemma summary_no_selenium r : Forall no_selenium (summary_of r).
Proof.
  unfold summary_of. apply Forall_app. split; [by repeat constructor|].
  destruct (truthy (failed r)); [|constructor].
  constructor; [done|]. apply Forall_forall. intros ev Hev.
  apply list_elem_of_In, in_map_iff in Hev. by destruct Hev as (n & <- & _).
Qed.

Lemma pause_no_selenium i total a b : inv (quiet no_selenium) (pause i total a b).
Proof. unfold pause. act; by apply inv_quiet_print || by apply inv_quiet_sleep. Qed.

Lemma pause_same_self i total a b : inv same_self (pause i total a b).
Proof. unfold pause. act. Qed.

Lemma round_without_wait total message a b i entry st :
  wait (self st) = None →
  let m := send_bulk_messages_round total message a b (i, entry) in
  wait (self (m st).2) = None
  ∧ success (results (self (m st).2)) = success (results (self st))
  ∧ failed (results (self (m st).2))
    = failed (results (self st)) ++ recipients [entry]
  ∧ ∃ evs, trace (m st).2 = trace st ++ evs ∧ selenium evs = [].
Proof.
  intros Hw m. subst m. unfold send_bulk_messages_round. cbn [fst snd].
  rewrite truthy_strip, recipients_one.
  destruct (blank entry); cbn [negb].
  { simpl. rewrite app_nil_r. repeat split; try done.
    exists []. by rewrite app_nil_r. }
  set (p := strip entry). rewrite bind_run, print_run. cbv beta iota.
  rewrite bind_run, send_message_without_wait by done. cbv beta iota.
  rewrite log_all_log_all, bind_run.
  change (modify_self (append_failed p) ?s)
    with (Ret (), set_self (append_failed p (self s)) s).
  cbv beta iota.
  match goal with |- context [pause i total a b ?s] => set (s2 := s) end.
  destruct (pause_no_selenium i total a b s2) as (_ & _ & evs & Ht & Hns).
  pose proof (pause_same_self i total a b s2) as Hself.
  unfold same_self in Hself. rewrite Hself, Ht.
  split; [done|]. split; [done|]. split; [done|].
  subst s2. cbn [trace set_self log_all]. rewrite <- !app_assoc.
  eexists. split; [reflexivity|].
  rewrite !selenium_app. by rewrite (no_selenium_hidden evs).
Qed.

Lemma dispatch_loop_without_wait total message a b entries i st :
  wait (self st) = None →
  let m := dispatch_loop total message a b i entries in
  (m st).1 = Ret tt →
  wait (self (m st).2) = None
  ∧ success (results (self (m st).2)) = success (results (self st))
  ∧ failed (results (self (m st).2))
    = failed (results (self st)) ++ recipients entries
  ∧ ∃ evs, trace (m st).2 = trace st ++ evs ∧ selenium evs = [].
Proof.
  revert i st. induction entries as [|entry entries IH]; intros i st Hw m Hret.
  { subst m. simpl. rewrite app_nil_r. repeat split; try done.
    exists []. by rewrite app_nil_r. }
  subst m. unfold dispatch_loop in *. cbn [enumerate for_each] in *.
  rewrite bind_run in *.
  destruct (round_without_wait total message a b i entry st Hw)
    as (Hw1 & Hs1 & Hf1 & evs1 & Ht1 & Hn1).
  cbv zeta in *.
  destruct (send_bulk_messages_round total message a b (i, entry) st)
    as [[[]|e] st1]; cbn [fst snd] in *; [|done].
  destruct (IH (S i) st1 Hw1 Hret) as (Hw2 & Hs2 & Hf2 & evs2 & Ht2 & Hn2).
  split; [done|]. split; [congruence|]. split.
  - change (entry :: entries) with ([entry] ++ entries).
    by rewrite Hf2, Hf1, recipients_app, app_assoc.
  - exists (evs1 ++ evs2). rewrite selenium_app, Hn1, Hn2.
    by rewrite Ht2, Ht1, app_assoc.
Qed.

(** On a sender whose [setup_driver] was not run ([self.wait] is None),
    a run of [send_bulk_messages] that completes makes no Selenium call at
    all and appends every recipient to the failed list, in order; the
    succeeded list is untouched. *)
Theorem send_bulk_messages_without_browser phone_numbers message a b st :
  wait (self st) = None →
  (send_bulk_messages phone_numbers message a b st).1 = Ret tt →
  let st' := (send_bulk_messages phone_numbers message a b st).2 in
  success (results (self st')) = success (results (self st))
  ∧ failed (results (self st'))
    = failed (results (self st)) ++ recipients phone_numbers
  ∧ ∃ evs, trace st' = trace st ++ evs ∧ selenium evs = [].
Proof.
  intros Hw Hret st'. subst st'.
  rewrite send_bulk_messages_run in *.
  set (st0 := log_all (heading phone_numbers message) st) in *.
  assert (wait (self st0) = None) as Hw0 by done.
  pose proof (dispatch_loop_without_wait (length phone_numbers) message a b
                phone_numbers 1 st0 Hw0) as Hloop.
  cbv zeta in Hloop.
  destruct (dispatch_loop _ _ _ _ _ _ st0) as [[[]|e] st1];
    cbn [fst snd] in *; [|done].
  destruct (Hloop eq_refl) as (_ & Hs & Hf & evs & Ht & Hn).
  split; [done|]. split; [done|].
  exists (heading phone_numbers message ++ evs
          ++ summary_of (results (self st1))).
  cbn [snd trace log_all]. rewrite Ht. subst st0. cbn [trace log_all].
  split; [by rewrite <- !app_assoc|].
  rewrite !selenium_app, Hn. rewrite (no_selenium_hidden (summary_of _)).
  - done.
  - apply summary_no_selenium.
Qed.

Lemma send_bulk_messages_without_browser_witness :
  let st := world (WhatsAppBulkSender false) no_files obliging in
  let st' := (send_bulk_messages [alice; bob] hi 2 5 st).2 in
  success (results (self st')) = success (results (self st))
  ∧ failed (results (self st'))
    = failed (results (self st)) ++ recipients [alice; bob]
  ∧ ∃ evs, trace st' = trace st ++ evs ∧ selenium evs = [].
Proof.
  apply send_bulk_messages_without_browser.
  - reflexivity.
  - vm_compute. reflexivity.
Defined.

(** *** [setup_driver], [open_whatsapp_web] and [cleanup] *)

Ltac run1 :=
  rewrite ?bind_run;
  first [rewrite print_run | rewrite get_self_run | rewrite external_run
        | rewrite sleep_run by done];
  cbv beta iota; rewrite ?log_all_log_all.

Lemma open_whatsapp_web_run st :
  ∃ evs,
    (open_whatsapp_web st).2 = log_all evs st
    ∧ selenium evs `prefix_of` [driver_get; wait_until SearchBox]
    ∧ match (open_whatsapp_web st).1 with
      | Ret true =>
          evs = login_events ++ [Printed LLoggedIn; Called (time_sleep 2)]
      | Ret false =>
          evs = login_events ++ [Printed LQRTimeout]
          ∧ env st (trace st ++ [Printed LOpening; Called driver_get;
                                 Printed LWaitingQR; Printed LPleaseScan])
                (wait_until SearchBox) = Throws TimeoutException
      | Raise _ => True
      end.
Proof.
  unfold open_whatsapp_web. run1. rewrite bind_run.
  unfold self_driver. run1. cbn [self log_all].
  destruct (driver (self st)) as [d|]; cbn [raise mret M_ret]; cbv beta iota.
  2:{ eexists. split; [reflexivity|]. split; [|done].
      by exists [driver_get; wait_until SearchBox]. }
  run1. cbn [env trace log_all].
  destruct (env st _ driver_get); cbv beta iota.
  2,3: (eexists; split; [reflexivity|]; split; [|done];
        by exists [wait_until SearchBox]).
  do 2 run1. unfold try_except. rewrite bind_run.
  unfold self_wait_until, self_wait. rewrite bind_run. run1.
  cbn [self log_all].
  destruct (wait (self st)) as [w|]; cbn [raise mret M_ret]; cbv beta iota.
  2:{ eexists. split; [reflexivity|]. split; [|done].
      by exists [wait_until SearchBox]. }
  run1. cbn [env trace log_all]. rewrite <- !app_assoc. cbn [app].
  destruct (env st _ (wait_until SearchBox)) as [|[]|] eqn:E;
    cbv beta iota; cbn [mret M_ret]; cbv beta iota.
  1:{ do 2 run1. cbn [env trace log_all].
      match goal with
      | |- context [env ?s ?h (time_sleep 2)] =>
          destruct (env s h (time_sleep 2))
      end; cbv beta iota; cbn [mret M_ret fst snd];
        (eexists; split; [reflexivity|]; split; [by exists []|]); done. }
  1:{ rewrite print_ret_run, log_as_log_all, log_all_log_all. cbn [fst snd].
      eexists. split; [reflexivity|]. split; [by exists []|]. done. }
  all: eexists; (split; [reflexivity|]); split; [by exists [] | done].
Qed.

(** [open_whatsapp_web] returns True only when the wait for the search
    box returned, after which it has printed the login line and slept two
    seconds; it returns False only when that wait timed out, after
    printing the timeout line and without sleeping.  It calls the browser
    for nothing but the page and the wait, attempts no delivery and leaves
    the sender and the world as they were. *)
Theorem open_whatsapp_web_outcomes st :
  let r := (open_whatsapp_web st).1 in
  let st' := (open_whatsapp_web st).2 in
  self st' = self st ∧ same_world st st'
  ∧ ∃ evs,
      trace st' = trace st ++ evs
      ∧ attempts evs = []
      ∧ selenium evs `prefix_of` [driver_get; wait_until SearchBox]
      ∧ match r with
        | Ret true =>
            evs = login_events ++ [Printed LLoggedIn; Called (time_sleep 2)]
        | Ret false =>
            evs = login_events ++ [Printed LQRTimeout]
            ∧ env st (trace st ++ [Printed LOpening; Called driver_get;
                                   Printed LWaitingQR; Printed LPleaseScan])
                  (wait_until SearchBox) = Throws TimeoutException
        | Raise _ => True
        end.
Proof.
  cbv zeta. destruct (open_whatsapp_web_run st) as (evs & Hst & Hsel & Hres).
  destruct (open_whatsapp_web_backstage st) as (_ & _ & evs' & Ht' & Hback).
  rewrite Hst in *. cbn [self trace log_all] in *.
  apply app_inv_head in Ht' as <-.
  split; [done|]. split; [done|]. exists evs. split; [done|].
  split; [|done].
  apply (plain_hidden evs). eapply Forall_impl; [exact Hback|].
  apply backstage_plain.
Qed.

Lemma setup_driver_run st :
  let r := (setup_driver st).1 in
  let st' := (setup_driver st).2 in
  headless (self st') = headless (self st)
  ∧ results (self st') = results (self st)
  ∧ same_world st st'
  ∧ match r with
    | Ret _ =>
        driver (self st') = Some ChromeDriver
        ∧ wait (self st') = Some {| timeout := 200 |}
        ∧ trace st' = trace st ++ setup_events (headless (self st))
    | Raise _ =>
        wait (self st') = wait (self st)
        ∧ ((driver (self st') = driver (self st)
            ∧ ∃ evs, trace st' = trace st ++ evs
                     ∧ selenium evs `prefix_of`
                         [ChromeDriverManager_install;
                          webdriver_Chrome (negb (headless (self st)))])
           ∨ (driver (self st') = Some ChromeDriver
              ∧ trace st' = trace st
                  ++ [Called ChromeDriverManager_install;
                      Called (webdriver_Chrome (negb (headless (self st))));
                      Called driver_execute_script]))
    end.
Proof.
  cbv zeta. unfold setup_driver. run1. cbv zeta. run1.
  cbn [env trace log_all].
  destruct (env st (trace st) ChromeDriverManager_install); cbv beta iota.
  2,3: (cbn [fst snd self log_all trace]; repeat (split; [done|]);
        left; split; [done|]; eexists; split; [reflexivity|];
        by exists [webdriver_Chrome (negb (headless (self st)))]).
  run1. cbn [env trace log_all].
  destruct (env st _ (webdriver_Chrome _)); cbv beta iota.
  2,3: (cbn [fst snd self log_all trace]; repeat (split; [done|]);
        left; split; [done|]; eexists; split; [reflexivity|]; by exists []).
  rewrite bind_run.
  change (modify_self ?f ?s) with (Ret (), set_self (f (self s)) s).
  cbv beta iota. rewrite bind_run. unfold self_driver. run1.
  cbn [self set_self set_driver driver mret M_ret]. cbv beta iota.
  run1. cbn [env trace log_all set_self].
  destruct (env st _ driver_execute_script); cbv beta iota.
  2,3: (cbn [fst snd self log_all trace set_self set_driver wait headless
             results driver fs env rng];
        rewrite <- !app_assoc; repeat (split; [done|]); by right).
  rewrite bind_run.
  change (modify_self ?f ?s) with (Ret (), set_self (f (self s)) s).
  cbv beta iota. rewrite print_run.
  cbn [fst snd self log_all trace set_self set_driver set_wait wait headless
       results driver fs env rng].
  rewrite <- !app_assoc. by repeat (split; [done|]).
Qed.

(** [setup_driver], when it returns, has installed the driver, started
    Chrome (detached unless headless), run its script, and set
    [self.driver] and a [self.wait] of 200 seconds; when it raises,
    [self.wait] is not set, and [self.driver] is set exactly when Chrome
    had started, so that [cleanup] has a browser to quit then and none
    before.  It never changes [headless], the results or the world. *)
Theorem setup_driver_outcomes st :
  let r := (setup_driver st).1 in
  let st' := (setup_driver st).2 in
  headless (self st') = headless (self st)
  ∧ results (self st') = results (self st)
  ∧ same_world st st'
  ∧ match r with
    | Ret _ =>
        driver (self st') = Some ChromeDriver
        ∧ wait (self st') = Some {| timeout := 200 |}
        ∧ trace st' = trace st ++ setup_events (headless (self st))
    | Raise _ =>
        wait (self st') = wait (self st)
        ∧ ((driver (self st') = driver (self st)
            ∧ ∃ evs, trace st' = trace st ++ evs
                     ∧ selenium evs `prefix_of`
                         [ChromeDriverManager_install;
                          webdriver_Chrome (negb (headless (self st)))])
           ∨ (driver (self st') = Some ChromeDriver
              ∧ trace st' = trace st
                  ++ [Called ChromeDriverManager_install;
                      Called (webdriver_Chrome (negb (headless (self st))));
                      Called driver_execute_script]))
    end.
Proof. apply setup_driver_run. Qed.

(** [cleanup] quits the browser once when the sender has a driver and
    does nothing at all when it has none; it leaves the sender as it was,
    [self.driver] included, so that a second [cleanup] quits the browser
    again. *)
Theorem cleanup_quits_and_keeps_driver st :
  let st1 := (cleanup st).2 in
  let st2 := (cleanup st1).2 in
  self st1 = self st ∧ self st2 = self st
  ∧ (driver (self st) = None → cleanup st = (Ret tt, st))
  ∧ ∃ evs1 evs2,
      trace st1 = trace st ++ evs1 ∧ trace st2 = trace st1 ++ evs2
      ∧ selenium evs1 = quit_calls (driver (self st))
      ∧ selenium evs2 = quit_calls (driver (self st))
      ∧ attempts (evs1 ++ evs2) = [].
Proof.
  cbv zeta. rewrite (cleanup_run (cleanup st).2), (cleanup_run st).
  cbn [fst snd self log_all trace].
  split; [done|]. split; [done|]. split.
  { intros H. rewrite H. by rewrite log_all_nil. }
  eexists _, _. split; [reflexivity|]. split; [reflexivity|].
  destruct (driver (self st)); [|done].
  cbn [cleanup_events quit_calls].
  repeat match goal with
         | |- context [env ?s ?h driver_quit] => destruct (env s h driver_quit)
         end; done.
Qed.

(** *** The summary *)

Lemma send_bulk_messages_ret phone_numbers message a b st :
  (send_bulk_messages phone_numbers message a b st).1 = Ret tt →
  let st' := (send_bulk_messages phone_numbers message a b st).2 in
  ∃ evs0,
    trace st' = trace st ++ evs0 ++ summary_of (results (self st'))
    ∧ Forall no_summary evs0
    ∧ attempts evs0 = (λ p, (p, message)) <$> recipients phone_numbers
    ∧ (outcomes evs0).*1 = recipients phone_numbers
    ∧ success (results (self st'))
      = success (results (self st)) ++ sent_to (outcomes evs0)
    ∧ failed (results (self st'))
      = failed (results (self st)) ++ not_sent_to (outcomes evs0).
Proof.
  intros Hret st'. subst st'. rewrite send_bulk_messages_run in *.
  set (hd := heading phone_numbers message) in *.
  set (st0 := log_all hd st) in *.
  destruct (plain_hidden hd (heading_plain phone_numbers message))
    as (Ha0 & Ho0 & Hp0).
  destruct (dispatch_loop_spec (length phone_numbers) message a b
              phone_numbers 1 st0)
    as (evs & tried & [_ Ht Ha _ Hs Hf _] & _ & Hres).
  destruct (dispatch_loop_no_summary (length phone_numbers) message a b 1
              phone_numbers st0) as (evs' & Ht' & Hns).
  cbv zeta in *.
  destruct (dispatch_loop _ _ _ _ _ _ st0) as [[[]|e] st1];
    cbn [fst snd] in *; [|done].
  rewrite Ht in Ht'. apply app_inv_head in Ht' as <-.
  destruct Hres as (-> & Hall & _).
  exists (hd ++ evs). cbn [trace self log_all].
  assert (self st0 = self st ∧ trace st0 = trace st ++ hd) as [Hs0 Ht0]
    by done.
  rewrite Hs0 in Hs, Hf. rewrite Ht0 in Ht.
  split; [by rewrite Ht, <- !app_assoc|].
  split; [apply Forall_app; split; [by repeat constructor | done]|].
  by rewrite attempts_app, outcomes_app, Ha0, Ho0.
Qed.

Lemma sent_lengths outs :
  length (sent_to outs) + length (not_sent_to outs) = length outs.
Proof.
  rewrite <- length_app, (Permutation_length (sent_split outs)).
  apply length_fmap.
Qed.

(** A run of [send_bulk_messages] that completes prints the summary
    once, as the last thing it does and after every delivery attempt; the
    two counts it shows are the lengths of the succeeded and of the failed
    list as they are then, and together they exceed what the lists held
    before the call by the number of non-blank entries. *)
Theorem send_bulk_messages_summary phone_numbers message a b st :
  (send_bulk_messages phone_numbers message a b st).1 = Ret tt →
  let st' := (send_bulk_messages phone_numbers message a b st).2 in
  let r' := results (self st') in
  ∃ evs0,
    trace st' = trace st ++ evs0 ++ summary_of r'
    ∧ Forall no_summary evs0
    ∧ attempts evs0 = (λ p, (p, message)) <$> recipients phone_numbers
    ∧ attempts (summary_of r') = []
    ∧ Printed (LSuccessCount (length (success r'))) ∈ summary_of r'
    ∧ Printed (LFailedCount (length (failed r'))) ∈ summary_of r'
    ∧ length (success r') + length (failed r')
      = length (success (results (self st)))
        + length (failed (results (self st)))
        + length (recipients phone_numbers).
Proof.
  intros Hret st' r'. subst st' r'.
  destruct (send_bulk_messages_ret _ _ _ _ _ Hret)
    as (evs0 & Ht & Hns & Ha & Hall & Hs & Hf).
  exists evs0. split; [done|]. split; [done|]. split; [done|].
  split; [apply plain_hidden, summary_plain|].
  split; [unfold summary_of; set_solver|].
  split; [unfold summary_of; set_solver|].
  rewrite Hs, Hf, !length_app.
  pose proof (sent_lengths (outcomes evs0)) as Hl.
  rewrite <- Hall, length_fmap. lia.
Qed.

Lemma send_bulk_messages_summary_witness :
  let st := world ready no_files second_not_found in
  let st' := (send_bulk_messages [alice; bob] hi 2 5 st).2 in
  let r' := results (self st') in
  ∃ evs0,
    trace st' = trace st ++ evs0 ++ summary_of r'
    ∧ Forall no_summary evs0
    ∧ attempts evs0 = (λ p, (p, hi)) <$> recipients [alice; bob]
    ∧ attempts (summary_of r') = []
    ∧ Printed (LSuccessCount (length (success r'))) ∈ summary_of r'
    ∧ Printed (LFailedCount (length (failed r'))) ∈ summary_of r'
    ∧ length (success r') + length (failed r')
      = length (success (results (self st)))
        + length (failed (results (self st)))
        + length (recipients [alice; bob]).
Proof. apply send_bulk_messages_summary. vm_compute. reflexivity. Defined.

(** The results are never reset: a second call of [send_bulk_messages]
    on the same sender appends to what the first call left, and its
    summary counts the recipients of both calls. *)
Theorem send_bulk_messages_accumulates l1 l2 m1 m2 a b st :
  (send_bulk_messages l1 m1 a b st).1 = Ret tt →
  let st1 := (send_bulk_messages l1 m1 a b st).2 in
  (send_bulk_messages l2 m2 a b st1).1 = Ret tt →
  let st2 := (send_bulk_messages l2 m2 a b st1).2 in
  let r2 := results (self st2) in
  ∃ sent1 unsent1 sent2 unsent2,
    success r2 = success (results (self st)) ++ sent1 ++ sent2
    ∧ failed r2 = failed (results (self st)) ++ unsent1 ++ unsent2
    ∧ sent1 ++ unsent1 ≡ₚ recipients l1
    ∧ sent2 ++ unsent2 ≡ₚ recipients l2
    ∧ last_events (length (summary_of r2)) (trace st2) = summary_of r2.
Proof.
  intros Hret1 st1 Hret2 st2 r2. subst st1 st2 r2.
  destruct (send_bulk_messages_ret _ _ _ _ _ Hret1)
    as (evs1 & _ & _ & _ & Hall1 & Hs1 & Hf1).
  destruct (send_bulk_messages_ret _ _ _ _ _ Hret2)
    as (evs2 & Ht2 & _ & _ & Hall2 & Hs2 & Hf2).
  exists (sent_to (outcomes evs1)), (not_sent_to (outcomes evs1)),
         (sent_to (outcomes evs2)), (not_sent_to (outcomes evs2)).
  split; [by rewrite Hs2, Hs1, app_assoc|].
  split; [by rewrite Hf2, Hf1, app_assoc|].
  split; [rewrite <- Hall1; apply sent_split|].
  split; [rewrite <- Hall2; apply sent_split|].
  unfold last_events. rewrite Ht2, !app_assoc, !length_app.
  rewrite <- !app_assoc.
  match goal with
  | |- drop ?n (?x ++ ?y ++ ?z) = ?z =>
      replace n with (length (x ++ y)) by (rewrite !length_app; lia);
      rewrite (app_assoc x y z)
  end.
  by rewrite drop_app_length.
Qed.

Lemma send_bulk_messages_accumulates_witness :
  let st := world ready no_files second_not_found in
  let st1 := (send_bulk_messages [alice] hi 2 5 st).2 in
  let st2 := (send_bulk_messages [bob] hi 2 5 st1).2 in
  let r2 := results (self st2) in
  ∃ sent1 unsent1 sent2 unsent2,
    success r2 = success (results (self st)) ++ sent1 ++ sent2
    ∧ failed r2 = failed (results (self st)) ++ unsent1 ++ unsent2
    ∧ sent1 ++ unsent1 ≡ₚ recipients [alice]
    ∧ sent2 ++ unsent2 ≡ₚ recipients [bob]
    ∧ last_events (length (summary_of r2)) (trace st2) = summary_of r2.
Proof.
  apply send_bulk_messages_accumulates; vm_compute; reflexivity.
Defined.

(** *** The progress lines *)

Lemma progress_app tr1 tr2 : progress (tr1 ++ tr2) = progress tr1 ++ progress tr2.
Proof. apply omap_app. Qed.

Lemma no_progress_hidden evs : Forall no_progress evs → progress evs = [].
Proof.
  induction 1 as [|ev evs Hev _ IH]; [done|].
  change (ev :: evs) with ([ev] ++ evs). rewrite progress_app, IH.
  unfold progress. simpl. by rewrite Hev.
Qed.

Lemma browser_no_progress ev : browser ev → no_progress ev.
Proof. by destruct ev as [|[]|]. Qed.

Lemma round_progress total message a b i entry st :
  let m := send_bulk_messages_round total message a b (i, entry) in
  ∃ evs, trace (m st).2 = trace st ++ evs
         ∧ progress evs = announced total [(i, entry)].
Proof.
  intros m. subst m. unfold send_bulk_messages_round, announced.
  cbn [fst snd omap list_omap]. rewrite truthy_strip.
  destruct (blank entry) eqn:Hb; cbn [negb].
  { exists []. by rewrite app_nil_r. }
  set (p := strip entry). rewrite bind_run.
  change (print (LProcessing i total p) st)
    with (Ret (), log (Printed (LProcessing i total p)) st).
  cbv beta iota. set (st0 := log (Printed (LProcessing i total p)) st).
  match goal with
  | |- context [(?k st0).2] =>
      assert (inv (traced no_progress) k) as Hrest
  end.
  { act.
    - apply inv_traced_of_quiet. apply send_message_quiet; try done.
      + apply browser_no_progress.
      + intros l Hl. by destruct l.
    - apply inv_traced_modify_self.
    - apply inv_traced_modify_self.
    - by apply pause_traced. }
  destruct (Hrest st0) as (evs & Ht & Hall).
  exists (Printed (LProcessing i total p) :: evs). split.
  - rewrite Ht. change (trace st0)
      with (trace st ++ [Printed (LProcessing i total p)]).
    by rewrite <- app_assoc.
  - change (Printed (LProcessing i total p) :: evs)
      with ([Printed (LProcessing i total p)] ++ evs).
    by rewrite progress_app, (no_progress_hidden _ Hall).
Qed.

Lemma dispatch_loop_progress total message a b entries i st :
  let m := dispatch_loop total message a b i entries in
  ∃ evs, trace (m st).2 = trace st ++ evs
         ∧ progress evs `prefix_of` announced total (enumerate entries i)
         ∧ ((m st).1 = Ret tt
            → progress evs = announced total (enumerate entries i)).
Proof.
  revert i st. induction entries as [|entry entries IH]; intros i st.
  { exists []. by rewrite app_nil_r. }
  unfold dispatch_loop. cbn [enumerate for_each]. rewrite bind_run.
  destruct (round_progress total message a b i entry st) as (evs1 & Ht1 & Hp1).
  cbv zeta in Ht1.
  change ((i, entry) :: enumerate entries (S i))
    with ([(i, entry)] ++ enumerate entries (S i)).
  unfold announced at 1 2. rewrite omap_app. fold (announced total [(i, entry)]).
  fold (announced total (enumerate entries (S i))).
  destruct (send_bulk_messages_round total message a b (i, entry) st)
    as [[[]|e] st1]; cbn [fst snd] in *.
  - destruct (IH (S i) st1) as (evs2 & Ht2 & Hpre & Heq).
    unfold dispatch_loop in *. cbv zeta in *.
    exists (evs1 ++ evs2). split; [by rewrite Ht2, Ht1, <- app_assoc|].
    rewrite progress_app, Hp1. split.
    + by apply prefix_app.
    + intros Hret. by rewrite (Heq Hret).
  - exists evs1. split; [done|]. rewrite Hp1. split; [|done].
    by apply prefix_app_r.
Qed.

Lemma announced_lookup total entries i j t p :
  (j, t, p) ∈ announced total (enumerate entries i) →
  t = total ∧ i ≤ j < i + length entries
  ∧ ∃ e, entries !! (j - i) = Some e ∧ blank e = false ∧ p = strip e.
Proof.
  revert i. induction entries as [|entry entries IH]; intros i.
  { by intros ?%elem_of_nil. }
  cbn [enumerate]. unfold announced. cbn [omap list_omap fst snd].
  fold (announced total (enumerate entries (S i))).
  destruct (blank entry) eqn:Hb.
  - intros (-> & Hj & e & He & Hbe & ->)%IH. split; [done|].
    split; [simpl; lia|]. exists e. split; [|done].
    replace (j - i) with (S (j - S i)) by lia. done.
  - intros [[= -> -> ->]|(-> & Hj & e & He & Hbe & ->)%IH]%elem_of_cons.
    + split; [done|]. split; [simpl; lia|]. exists entry.
      by rewrite Nat.sub_diag.
    + split; [done|]. split; [simpl; lia|]. exists e. split; [|done].
      replace (j - i) with (S (j - S i)) by lia. done.
Qed.

Lemma announced_recipients total entries i :
  (announced total (enumerate entries i)).*2 = recipients entries.
Proof.
  revert i. induction entries as [|entry entries IH]; intros i; [done|].
  cbn [enumerate]. unfold announced. cbn [omap list_omap fst snd].
  fold (announced total (enumerate entries (S i))).
  change (entry :: entries) with ([entry] ++ entries).
  rewrite recipients_app, recipients_one.
  destruct (blank entry); simpl; by rewrite IH.
Qed.

(** Every [[i/total] Processing p...] line of [send_bulk_messages] shows
    the position [i] of the entry in the list passed, counted from 1 and
    with the blank entries counted, the length [total] of that list, blank
    entries included, and the entry stripped; the lines come in the order
    of the list, and a run that completes has one per non-blank entry. *)
Theorem send_bulk_messages_progress phone_numbers message a b st :
  let m := send_bulk_messages phone_numbers message a b in
  ∃ evs,
    trace (m st).2 = trace st ++ evs
    ∧ progress evs
      `prefix_of` announced (length phone_numbers) (enumerate phone_numbers 1)
    ∧ (∀ i total p, (i, total, p) ∈ progress evs →
         total = length phone_numbers ∧ 1 ≤ i ≤ total
         ∧ ∃ e, phone_numbers !! (i - 1) = Some e
                ∧ blank e = false ∧ p = strip e)
    ∧ ((m st).1 = Ret tt → (progress evs).*2 = recipients phone_numbers).
Proof.
  intros m. subst m. rewrite send_bulk_messages_run.
  set (hd := heading phone_numbers message). set (st0 := log_all hd st).
  destruct (dispatch_loop_progress (length phone_numbers) message a b
              phone_numbers 1 st0) as (evs & Ht & Hpre & Heq).
  cbv zeta in *.
  change (trace st0) with (trace st ++ hd) in Ht.
  assert (progress hd = []) as Hhd by done.
  assert (∀ r, progress (summary_of r) = []) as Hsm.
  { intros r. unfold summary_of. rewrite progress_app. simpl.
    destruct (truthy (failed r)); [|done].
    change (Printed LFailedHeader :: ?l) with ([Printed LFailedHeader] ++ l).
    rewrite progress_app. simpl. by induction (failed r). }
  assert (∀ evs', progress evs' = progress evs →
            (∀ i total p, (i, total, p) ∈ progress evs' →
               total = length phone_numbers ∧ 1 ≤ i ≤ total
               ∧ ∃ e, phone_numbers !! (i - 1) = Some e
                      ∧ blank e = false ∧ p = strip e)) as Hin.
  { intros evs' -> i total p Hi.
    destruct Hpre as [rest Hrest].
    destruct (announced_lookup (length phone_numbers) phone_numbers 1 i total p)
      as (-> & Hj & e & He & Hb & ->).
    { rewrite Hrest. set_solver. }
    split; [done|]. split; [lia|]. by exists e. }
  destruct (dispatch_loop _ _ _ _ _ _ st0) as [[[]|e] st1];
    cbn [fst snd] in *.
  - exists (hd ++ evs ++ summary_of (results (self st1))).
    assert (progress (hd ++ evs ++ summary_of (results (self st1)))
            = progress evs) as Hp.
    { by rewrite !progress_app, Hhd, Hsm, app_nil_r. }
    cbn [trace log_all]. split; [by rewrite Ht, <- !app_assoc|].
    rewrite Hp. split; [done|]. split; [by apply Hin|].
    intros _. rewrite (Heq eq_refl). apply announced_recipients.
  - exists (hd ++ evs).
    assert (progress (hd ++ evs) = progress evs) as Hp.
    { by rewrite !progress_app, Hhd. }
    split; [by rewrite Ht, <- !app_assoc|].
    rewrite Hp. split; [done|]. split; [by apply Hin|]. done.
Qed.

(** *** The whole session *)

#[global] Instance same_browser_preorder : PreOrder same_browser.
Proof.
  split; [by intros st|]. intros x y z (?&?&?) (?&?&?).
  unfold same_browser. split_and!; congruence.
Qed.

Lemma inv_same_browser_of_same_self {A} (m : M A) :
  inv same_self m → inv same_browser m.
Proof. intros H st. specialize (H st). unfold same_browser. by rewrite H. Qed.

Lemma send_bulk_messages_same_browser phone_numbers message a b :
  inv same_browser (send_bulk_messages phone_numbers message a b).
Proof.
  unfold send_bulk_messages, send_bulk_messages_round, print_summary. act;
    try (apply inv_same_browser_of_same_self; act; fail);
    try done.
  - apply inv_same_browser_of_same_self, send_message_same_self.
  - apply inv_same_browser_of_same_self, pause_same_self.
Qed.

Lemma main_try_ret args phone_numbers st :
  (main_try args phone_numbers st).1 = Ret tt →
  ∃ st1 st2,
    setup_driver st = (Ret tt, st1)
    ∧ open_whatsapp_web st1 = (Ret true, st2)
    ∧ main_try args phone_numbers st
      = send_bulk_messages phone_numbers (message args)
          (inject_Z (delay_min args)) (inject_Z (delay_max args)) st2.
Proof.
  intros H.
  assert (∃ st1, setup_driver st = (Ret tt, st1)) as [st1 H1].
  { unfold main_try in H. rewrite bind_run in H.
    destruct (setup_driver st) as [[[]|e] st1]; [|done]. by exists st1. }
  assert (∃ st2, open_whatsapp_web st1 = (Ret true, st2)) as [st2 H2].
  { unfold main_try in H. rewrite bind_run, H1, bind_run in H.
    destruct (open_whatsapp_web st1) as [[[]|e] st2]; [by exists st2| |done].
    cbn [negb] in H. rewrite bind_run, bind_run, print_run in H.
    cbv beta iota in H. rewrite bind_run in H.
    by destruct (cleanup _) as [[[]|e] st3]. }
  exists st1, st2. split; [done|]. split; [done|].
  unfold main_try. by rewrite bind_run, H1, bind_run, H2.
Qed.

Lemma recipients_of_recipients_length (l : list str) :
  length (recipients (take (length (recipients l) - 1) (recipients l)))
  = length (recipients l) - 1.
Proof.
  assert (∀ l' : list str, Forall (λ e, blank e = false) l' →
            List.filter (λ e, negb (blank e)) l' = l') as Hall.
  { induction 1 as [|e l' He _ IH]; [done|]. simpl. by rewrite He, IH. }
  assert (Forall (λ e, blank e = false) (recipients l)) as Hnb.
  { eapply Forall_impl; [apply recipients_trimmed|]. apply trimmed_not_blank. }
  rewrite (recipients_length (take _ _)), Hall.
  - rewrite length_take. lia.
  - eapply Forall_of_prefix; [apply prefix_take | done].
Qed.

(** A session of [main] that gets through the login and the dispatch:
    after the line that tells how many numbers were loaded, every
    recipient read from the file is attempted once with the message of the
    command line, in the order of the file, with one pause less than there
    are recipients; the summary comes after the last attempt and the
    browser is quit after the summary; the two result lists of the fresh
    sender together hold the recipients of the file; the exit status is 0
    unless quitting the browser raises. *)
Theorem main_completed_session args content st :
  let phone_numbers := recipients (file_lines content) in
  let st0 := session_start args phone_numbers st in
  let fin := run args st in
  let r := results (self fin.2) in
  fs st (numbers args) = Holds content →
  phone_numbers ≠ [] →
  (main_try args phone_numbers st0).1 = Ret tt →
  ∃ evs0 quit,
    trace fin.2
    = trace st ++ [Printed (LLoaded (length phone_numbers) (numbers args))]
      ++ evs0 ++ summary_of r ++ cleanup_events (Some ChromeDriver) quit
    ∧ attempts evs0 = (λ p, (p, message args)) <$> phone_numbers
    ∧ length (pauses evs0) = length phone_numbers - 1
    ∧ success r ++ failed r ≡ₚ phone_numbers
    ∧ fin.1 = match quit with
              | Done => 0 | Throws _ => 1 | Interrupted => 130
              end%Z.
Proof.
  intros phone_numbers st0 fin r Hfs Hne Hret. subst fin r.
  unfold run. rewrite (main_reaches_session _ content) by done.
  fold phone_numbers. fold st0.
  unfold main_session, try_finally, try_except.
  destruct (main_try_ret _ _ _ Hret) as (st1 & st2 & Hsetup & Hopen & Htry).
  rewrite Htry in *. clear Htry.
  set (a := inject_Z (delay_min args)) in *.
  set (b := inject_Z (delay_max args)) in *.
  (* the setup *)
  pose proof (setup_driver_run st0) as Hs. cbv zeta in Hs.
  rewrite Hsetup in Hs. cbn [fst snd] in Hs.
  destruct Hs as (_ & Hres1 & _ & Hdrv1 & _ & Ht1).
  (* the login *)
  destruct (open_whatsapp_web_run st1) as (evs2 & Hst2 & _ & Hev2).
  rewrite Hopen in Hst2, Hev2. cbn [fst snd] in Hst2, Hev2. subst st2 evs2.
  set (st2 := log_all _ st1) in *.
  (* the dispatch *)
  destruct (send_bulk_messages_ret _ _ _ _ _ Hret)
    as (evs3 & Ht3 & _ & Ha3 & Hall3 & Hsucc & Hfail).
  destruct (pauses_of_completed_run _ _ _ _ _ Hret) as (evs3' & Ht3' & Hlen & _).
  pose proof (send_bulk_messages_same_browser phone_numbers (message args)
                a b st2) as (Hdrv3 & _ & _).
  destruct (send_bulk_messages phone_numbers (message args) a b st2)
    as [res st3] eqn:Hbulk.
  cbn [fst snd] in *. subst res.
  assert (evs3' = evs3 ++ summary_of (results (self st3))) as ->.
  { rewrite Ht3 in Ht3'. by apply app_inv_head in Ht3'. }
  assert (driver (self st3) = Some ChromeDriver) as Hdrv by by rewrite Hdrv3.
  (* the cleanup *)
  rewrite (cleanup_run st3), Hdrv. cbv zeta.
  set (quit := env st3 _ driver_quit).
  set (setup := setup_events (headless (self st0))) in *.
  set (login := login_events ++ [Printed LLoggedIn; Called (time_sleep 2)])
    in *.
  assert (Forall plain (setup ++ login)) as Hplain.
  { subst setup login. unfold setup_events, login_events.
    repeat constructor. }
  destruct (plain_hidden _ Hplain) as (Hap & Hop & Hpp).
  destruct (plain_hidden _ (summary_plain (results (self st3))))
    as (_ & _ & Hps).
  exists ((setup ++ login) ++ evs3), quit.
  assert (results (self (log_all (cleanup_events (Some ChromeDriver) quit) st3))
          = results (self st3)) as Hr by done.
  assert (trace (log_all (cleanup_events (Some ChromeDriver) quit) st3)
          = trace st3 ++ cleanup_events (Some ChromeDriver) quit) as Ht by done.
  assert (trace st2 = trace st
                      ++ [Printed (LLoaded (length phone_numbers) (numbers args))]
                      ++ setup ++ login) as Ht2.
  { subst st2. cbn [trace log_all]. rewrite Ht1. subst st0.
    unfold session_start. cbn [trace set_self log]. by rewrite <- !app_assoc. }
  assert (results (self st2) = {| success := []; failed := [] |}) as Hr2.
  { subst st2. cbn [self log_all]. by rewrite Hres1. }
  assert (recipients phone_numbers = phone_numbers) as Hid
    by apply recipients_idemp.
  assert (length (recipients (take (length phone_numbers - 1) phone_numbers))
          = length phone_numbers - 1) as Hcount
    by apply recipients_of_recipients_length.
  rewrite Hid in Ha3, Hall3.
  rewrite pauses_app, Hps, app_nil_r, Hcount in Hlen.
  destruct quit eqn:Hq; cbn [fst snd]; rewrite ?Hr, ?Ht, Ht3, Ht2;
    (split; [rewrite <- !app_assoc; reflexivity|]);
    (split; [by rewrite attempts_app, Hap|]);
    (split; [by rewrite pauses_app, Hpp|]);
    (split; [|done]);
    rewrite Hsucc, Hfail, Hr2; simpl;
    (etrans; [apply sent_split|]);
    by rewrite Hall3.
Qed.

Lemma main_completed_session_witness :
  let st := world (WhatsAppBulkSender false) (one_file numbers_txt)
              second_not_found in
  let phone_numbers := recipients (file_lines numbers_txt) in
  let fin := run example_args st in
  let r := results (self fin.2) in
  ∃ evs0 quit,
    trace fin.2
    = trace st
      ++ [Printed (LLoaded (length phone_numbers) (numbers example_args))]
      ++ evs0 ++ summary_of r ++ cleanup_events (Some ChromeDriver) quit
    ∧ attempts evs0 = (λ p, (p, message example_args)) <$> phone_numbers
    ∧ length (pauses evs0) = length phone_numbers - 1
    ∧ success r ++ failed r ≡ₚ phone_numbers
    ∧ fin.1 = match quit with
              | Done => 0 | Throws _ => 1 | Interrupted => 130
              end%Z.
Proof.
  apply main_completed_session.
  - vm_compute. reflexivity.
  - vm_compute. discriminate.
  - vm_compute. reflexivity.
Defined.

(** When the login times out, [main] prints that it failed to log in and
    exits with status 1 after quitting the browser twice, once in the
    [try] block and once in the [finally] clause, given that
    [driver.quit()] returns; nothing is delivered and no summary is
    printed. *)
Theorem main_login_timeout args content st :
  let phone_numbers := recipients (file_lines content) in
  let st0 := session_start args phone_numbers st in
  let st1 := (setup_driver st0).2 in
  let fin := run args st in
  fs st (numbers args) = Holds content →
  phone_numbers ≠ [] →
  (setup_driver st0).1 = Ret tt →
  (open_whatsapp_web st1).1 = Ret false →
  (∀ h, env st h driver_quit = Done) →
  fin.1 = 1%Z
  ∧ results (self fin.2) = {| success := []; failed := [] |}
  ∧ ∃ evs,
      trace fin.2 = trace st ++ evs
      ∧ attempts evs = []
      ∧ Forall no_summary evs
      ∧ selenium evs
        = [ChromeDriverManager_install;
           webdriver_Chrome (negb (arg_headless args));
           driver_execute_script; driver_get; wait_until SearchBox;
           driver_quit; driver_quit]
      ∧ last_events 7 evs
        = [Printed LLoginFailed]
          ++ cleanup_events (Some ChromeDriver) Done
          ++ cleanup_events (Some ChromeDriver) Done.
Proof.
  intros phone_numbers st0 st1 fin Hfs Hne Hsetup Hlogin Hquit. subst fin.
  unfold run. rewrite (main_reaches_session _ content) by done.
  fold phone_numbers. fold st0.
  pose proof (setup_driver_run st0) as Hs. cbv zeta in Hs.
  subst st1. destruct (setup_driver st0) as [r1 st1] eqn:Hsd.
  cbn [fst snd] in *. subst r1.
  destruct Hs as (_ & Hres1 & (_ & Henv1 & _) & Hdrv1 & _ & Ht1).
  destruct (open_whatsapp_web_run st1) as (evs2 & Hst2 & _ & Hev2).
  rewrite Hlogin in Hev2. destruct Hev2 as [-> _].
  destruct (open_whatsapp_web st1) as [r2 st2] eqn:Hopen.
  cbn [fst snd] in *. subst r2 st2.
  unfold main_session, try_finally, try_except, main_try.
  rewrite bind_run, Hsd, bind_run, Hopen. cbn [negb].
  rewrite bind_run, bind_run, print_run.
  cbv beta iota. rewrite bind_run.
  set (st3 := log_all [Printed LLoginFailed] _).
  assert (env st3 = env st) as Henv3.
  { subst st3. cbn [env log_all]. rewrite Henv1. by subst st0. }
  assert (driver (self st3) = Some ChromeDriver) as Hdrv3 by done.
  rewrite (cleanup_run st3), Hdrv3, Henv3, Hquit. cbv zeta beta iota.
  set (st4 := log_all _ st3).
  unfold sys_exit, raise. cbn [main_except].
  assert (driver (self st4) = Some ChromeDriver) as Hdrv4 by done.
  assert (env st4 = env st) as Henv4 by done.
  rewrite (cleanup_run st4), Hdrv4, Henv4, Hquit. cbv zeta beta iota.
  cbn [fst snd exit_status]. split; [done|].
  cbn [self log_all]. split.
  { subst st4 st3. cbn [self log_all]. by rewrite Hres1. }
  subst st4 st3. cbn [trace log_all]. rewrite Ht1. subst st0.
  unfold session_start.
  cbn [trace set_self log self headless WhatsAppBulkSender].
  rewrite <- !app_assoc. eexists. split; [reflexivity|].
  split; [done|]. split; [repeat constructor|]. done.
Qed.

Lemma main_login_timeout_witness :
  let st := world (WhatsAppBulkSender false) (one_file numbers_txt) no_login in
  let fin := run example_args st in
  fin.1 = 1%Z
  ∧ results (self fin.2) = {| success := []; failed := [] |}
  ∧ ∃ evs,
      trace fin.2 = trace st ++ evs
      ∧ attempts evs = []
      ∧ Forall no_summary evs
      ∧ selenium evs
        = [ChromeDriverManager_install;
           webdriver_Chrome (negb (arg_headless example_args));
           driver_execute_script; driver_get; wait_until SearchBox;
           driver_quit; driver_quit]
      ∧ last_events 7 evs
        = [Printed LLoginFailed]
          ++ cleanup_events (Some ChromeDriver) Done
          ++ cleanup_events (Some ChromeDriver) Done.
Proof.
  apply (main_login_timeout example_args numbers_txt).
  - vm_compute. reflexivity.
  - vm_compute. discriminate.
  - vm_compute. reflexivity.
  - vm_compute. reflexivity.
  - intros h. reflexivity.
Defined.

(** *** A negative delay *)






(** *** The exit status *)

Lemma send_message_clean p m : clean (send_message p m).
Proof.
  unfold send_message, send_message_try. act.
  unfold send_message_except in *. repeat case_match; simplify_eq; act.
Qed.

Lemma send_bulk_messages_clean l m a b : clean (send_bulk_messages l m a b).
Proof.
  unfold send_bulk_messages, send_bulk_messages_round, print_summary, pause.
  act. apply send_message_clean.
Qed.

Lemma main_try_exit args phone_numbers st c :
  (main_try args phone_numbers st).1 = Raise (SystemExit c) →
  c = 1%Z
  ∧ ∃ evs, trace (main_try args phone_numbers st).2 = trace st ++ evs
           ∧ Printed LLoginFailed ∈ evs.
Proof.
  destruct (main_try args phone_numbers st) as [r st'] eqn:Hm.
  cbn [fst snd]. intros ->. unfold main_try in Hm. rewrite bind_run in Hm.
  destruct (setup_driver_clean st) as [_ Hf1].
  destruct (setup_driver_backstage st) as (_ & _ & evs1 & Ht1 & _).
  destruct (setup_driver st) as [[[]|e1] st1]; cbn [fst snd] in *;
    [|by simplify_eq].
  rewrite bind_run in Hm.
  destruct (open_whatsapp_web_clean st1) as [_ Hf2].
  destruct (open_whatsapp_web_backstage st1) as (_ & _ & evs2 & Ht2 & _).
  destruct (open_whatsapp_web st1) as [[ok|e2] st2]; cbn [fst snd] in *;
    [|by simplify_eq].
  destruct ok; cbn [negb] in Hm.
  - rewrite bind_run in Hm. unfold mret, M_ret in Hm.
    destruct (send_bulk_messages_clean phone_numbers (message args)
                (inject_Z (delay_min args)) (inject_Z (delay_max args)) st2)
      as [_ Hf3].
    rewrite Hm in Hf3. done.
  - rewrite bind_run, bind_run, print_run in Hm. cbv beta iota in Hm.
    rewrite bind_run in Hm.
    set (st3 := log_all [Printed LLoginFailed] st2) in *.
    destruct (cleanup_clean st3) as [_ Hf4].
    destruct (cleanup_backstage st3) as (_ & _ & evs4 & Ht4 & _).
    destruct (cleanup st3) as [[[]|e4] st4]; cbn [fst snd] in *;
      [|by simplify_eq].
    unfold sys_exit, raise in Hm. simplify_eq. split; [done|].
    exists (evs1 ++ evs2 ++ [Printed LLoginFailed] ++ evs4).
    split; [|set_solver].
    rewrite Ht4. change (trace st3) with (trace st2 ++ [Printed LLoginFailed]).
    by rewrite Ht2, Ht1, <- !app_assoc.
Qed.

Lemma main_try_extends args phone_numbers st :
  ∃ evs, trace (main_try args phone_numbers st).2 = trace st ++ evs.
Proof.
  assert (inv (traced (λ _, True)) (main_try args phone_numbers)) as H.
  { unfold main_try. act; try (apply inv_traced_of_quiet; act; fail).
    - apply inv_traced_of_quiet, (inv_quiet_weaken backstage);
        [done | apply setup_driver_backstage].
    - apply inv_traced_of_quiet, (inv_quiet_weaken backstage);
        [done | apply open_whatsapp_web_backstage].
    - apply inv_traced_of_quiet, (inv_quiet_weaken backstage);
        [done | apply cleanup_backstage].
    - intros s.
      destruct (send_bulk_messages_spec phone_numbers (message args)
                  (inject_Z (delay_min args)) (inject_Z (delay_max args)) s)
        as (evs & _ & [_ Ht _ _ _ _ _] & _).
      exists evs. split; [done|]. by apply Forall_forall. }
  destruct (H st) as (evs & Ht & _). by exists evs.
Qed.

Lemma cleanup_finally (r : result unit) st1 :
  let out := match cleanup st1 with
             | (Ret _, st2) => (r, st2)
             | (Raise e, st2) => (Raise e, st2)
             end in
  ∃ evs, trace out.2 = trace st1 ++ evs
    ∧ (out.1 = r
       ∨ ((exit_status out.1 = 1%Z ∨ exit_status out.1 = 130%Z)
          ∧ last evs = Some (Called driver_quit))).
Proof.
  cbv zeta. rewrite cleanup_run. cbv zeta.
  destruct (driver (self st1)) as [d|];
    [destruct (env st1 _ driver_quit)|]; cbn [fst snd cleanup_events];
    (eexists; split; [reflexivity|]); auto.
Qed.

(** Once the recipient file is read, [main] exits with a status other
    than 0 in two cases only: the login failed, and then with status 1
    unless quitting the browser raised; or quitting the browser in the
    [finally] clause raised, which is then the last thing the process did,
    with status 1 for an exception and 130 for an interrupt.  Whatever
    else happens, a failed driver setup and an exception or an interrupt
    in the dispatch included, it exits with status 0. *)
Theorem main_exit_status args content st :
  let phone_numbers := recipients (file_lines content) in
  let fin := run args st in
  fs st (numbers args) = Holds content →
  phone_numbers ≠ [] →
  ∃ evs,
    trace fin.2 = trace st ++ evs
    ∧ (fin.1 = 0%Z
       ∨ (fin.1 = 1%Z ∧ Printed LLoginFailed ∈ evs)
       ∨ ((fin.1 = 1%Z ∨ fin.1 = 130%Z)
          ∧ last evs = Some (Called driver_quit))).
Proof.
  intros phone_numbers fin Hfs Hne. subst fin.
  unfold run. rewrite (main_reaches_session _ content) by done.
  fold phone_numbers.
  set (st0 := session_start args phone_numbers st).
  assert (trace st0
          = trace st
            ++ [Printed (LLoaded (length phone_numbers) (numbers args))])
    as Ht0 by done.
  unfold main_session, try_finally, try_except.
  destruct (main_try_extends args phone_numbers st0) as (evs1 & Ht1).
  pose proof (main_try_exit args phone_numbers st0) as Hexit.
  destruct (main_try args phone_numbers st0) as [r st1]; cbn [fst snd] in *.
  assert (∀ (r' : result unit) st' evs',
            trace st' = trace st ++ evs' →
            (exit_status r' = 0%Z
             ∨ exit_status r' = 1%Z ∧ Printed LLoginFailed ∈ evs') →
            let out := match cleanup st' with
                       | (Ret _, st2) => (r', st2)
                       | (Raise e, st2) => (Raise e, st2)
                       end in
            ∃ evs,
              trace (let (r0, s) := out in (exit_status r0, s)).2
              = trace st ++ evs
              ∧ ((let (r0, s) := out in (exit_status r0, s)).1 = 0%Z
                 ∨ ((let (r0, s) := out in (exit_status r0, s)).1 = 1%Z
                    ∧ Printed LLoginFailed ∈ evs)
                 ∨ (((let (r0, s) := out in (exit_status r0, s)).1 = 1%Z
                     ∨ (let (r0, s) := out in (exit_status r0, s)).1 = 130%Z)
                    ∧ last evs = Some (Called driver_quit)))) as Hfin.
  { intros r' st' evs' Ht' Hr'. cbv zeta.
    destruct (cleanup_finally r' st') as (evs2 & Ht2 & Hout). cbv zeta in *.
    destruct (match cleanup st' with
              | (Ret _, st2) => (r', st2)
              | (Raise e, st2) => (Raise e, st2)
              end) as [r0 s0]; cbn [fst snd] in *.
    exists (evs' ++ evs2). split; [by rewrite Ht2, Ht', app_assoc|].
    destruct Hout as [->|[Hcode Hlast]].
    - destruct Hr' as [?|[? ?]]; [by left|]. right. left.
      split; [done|]. apply elem_of_app. by left.
    - right. right. split; [done|]. by rewrite last_app, Hlast. }
  destruct r as [[]|[e| |c]].
  - apply (Hfin _ _ ([Printed (LLoaded (length phone_numbers) (numbers args))]
                     ++ evs1)).
    + by rewrite Ht1, Ht0, <- app_assoc.
    + by left.
  - cbn [main_except]. rewrite bind_run, print_run. cbv beta iota.
    rewrite print_run, log_all_log_all.
    apply (Hfin _ _ ([Printed (LLoaded (length phone_numbers) (numbers args))]
                     ++ evs1
                     ++ [Printed (LUnexpectedError e); Printed (LTraceback e)])).
    + cbn [trace log_all]. by rewrite Ht1, Ht0, <- !app_assoc.
    + by left.
  - cbn [main_except]. rewrite print_run.
    apply (Hfin _ _ ([Printed (LLoaded (length phone_numbers) (numbers args))]
                     ++ evs1 ++ [Printed LInterrupted])).
    + cbn [trace log_all]. by rewrite Ht1, Ht0, <- !app_assoc.
    + by left.
  - destruct (Hexit c eq_refl) as (-> & evs & Hevs & Hin).
    rewrite Ht1 in Hevs. apply app_inv_head in Hevs as <-.
    cbn [main_except].
    apply (Hfin _ _ ([Printed (LLoaded (length phone_numbers) (numbers args))]
                     ++ evs1)).
    + by rewrite Ht1, Ht0, <- app_assoc.
    + right. split; [done|]. apply elem_of_app. by right.
Qed.

Lemma main_exit_status_witness :
  let st := world (WhatsAppBulkSender false) (one_file numbers_txt) no_login in
  let fin := run example_args st in
  ∃ evs,
    trace fin.2 = trace st ++ evs
    ∧ (fin.1 = 0%Z
       ∨ (fin.1 = 1%Z ∧ Printed LLoginFailed ∈ evs)
       ∨ ((fin.1 = 1%Z ∨ fin.1 = 130%Z)
          ∧ last evs = Some (Called driver_quit))).
Proof.
  apply (main_exit_status example_args numbers_txt).
  - vm_compute. reflexivity.
  - vm_compute. discriminate.
Defined.

(** *** A delivery that returns False *)

#[local] Hint Extern 1 (no_submit _) => reflexivity : act.













